(** * VTT maintenance scripts: [fix-grid-snapping.py] and [fix_esm_imports.py]

    A shallow embedding of the two utility scripts under
    [scripts/utilities/] and the properties their specification states.

    Conventions of the embedding
    - A Python [str] is a list of Unicode code points ([list N]).
    - [re.sub] is modelled by a backtracking matcher over the fragment of
      regular expressions the two scripts use; the order of the list
      returned by [exec] is the order in which the backtracking engine
      tries alternatives, so its head is the match Python reports.
    - The file tree is a finite map from resolved paths to nodes; file
      access runs in a small state-and-exception monad over it, with the
      console as a list of printed strings.
    - Symbolic links are not modelled, and paths are split on [/] only.
    - Which paths [Path.resolve()] and [stat] refuse, and with which
      exception, depends on the platform and is a parameter
      ([Platform]); [linux] is the instance the samples run on. *)

From Stdlib Require Import NArith String Ascii List Lia DecimalString.
From stdpp Require Import base list gmap.

Local Open Scope N_scope.
Local Open Scope nat_scope.

(** ** Text *)

Abbreviation text := (list N).

Module Text.

Fixpoint txt (s : string) : text :=
  match s with
  | EmptyString => []
  | String a s' => N_of_ascii a :: txt s'
  end.

Arguments txt : simpl never.

(** [s.startswith(p)] *)
Fixpoint startswith (p s : text) : bool :=
  match p, s with
  | [], _ => true
  | a :: p', b :: s' => N.eqb a b && startswith p' s'
  | _ :: _, [] => false
  end.

(** [s.endswith(p)] *)
Definition endswith (p s : text) : bool :=
  (length p <=? length s) && startswith p (drop (length s - length p) s).

(** [s.find(p)], [None] standing for [-1] *)
Fixpoint find (p s : text) : option nat :=
  if startswith p s then Some 0
  else match s with
       | [] => None
       | _ :: s' => S <$> find p s'
       end.

(** [p in s] *)
Definition contains (p s : text) : bool :=
  match find p s with Some _ => true | None => false end.

(** [s[i:j]] for [0 <= i <= j] *)
Definition slice (i j : nat) (s : text) : text := take (j - i) (drop i s).

(** [sep.join(parts)] *)
Fixpoint join (sep : text) (parts : list text) : text :=
  match parts with
  | [] => []
  | [p] => p
  | p :: ps => p ++ sep ++ join sep ps
  end.

(** [s.split(c)] for a one-character separator *)
Fixpoint split (c : N) (s : text) : list text :=
  match s with
  | [] => [[]]
  | a :: s' =>
      if N.eqb a c then [] :: split c s'
      else match split c s' with
           | w :: ws => (a :: w) :: ws
           | [] => [[a]]
           end
  end.

(** [str(n)] for a natural number *)
Definition show_nat (n : nat) : text := txt (NilEmpty.string_of_uint (Nat.to_uint n)).

(** [c * n] *)
Definition repeat_char (c : N) (n : nat) : text := replicate n c.

Definition squote : N := 39%N.
Definition dquote : N := 34%N.
Definition backslash : N := 92%N.

(** The same text occurs somewhere inside [s]. *)
Definition occurs (p s : text) : Prop := ∃ a b, s = a ++ p ++ b.

(** Some non-empty end of [a] is a beginning of [b]. *)
Definition overlaps (a b : text) : bool :=
  existsb (λ k, startswith (drop k a) b) (seq 0 (length a)).

(** Two texts that can neither overlap nor contain one another. *)
Definition apart (a b : text) : bool :=
  negb (overlaps a b) && negb (overlaps b a) && negb (contains a b) && negb (contains b a).

(** Some proper, non-empty end of [p] is a beginning of [p]. *)
Definition borders (p : text) : bool :=
  existsb (λ k, startswith (drop k p) p) (seq 1 (length p - 1)).

End Text.
Import Text.

(** ** Regular expressions and [re.sub] *)

Module Re.

(** The fragment of Python's pattern syntax used by the scripts:
    literals, one-character classes, a greedy [+] on a class,
    concatenation, [|], a greedy [?] and capturing groups. *)
Inductive regex : Type :=
| Lit (l : text)
| Cls (p : N → bool)
| Plus (p : N → bool)
| Cat (r1 r2 : regex)
| Alt (r1 r2 : regex)
| Opt (r : regex)
| Grp (n : nat) (r : regex).

(** A match object: the matched text and the captured groups, the most
    recently closed group first. *)
Record rmatch : Type := MkMatch { m_text : text; m_groups : list (nat * text) }.

Fixpoint assoc (n : nat) (gs : list (nat * text)) : option text :=
  match gs with
  | [] => None
  | (k, v) :: gs' => if Nat.eqb k n then Some v else assoc n gs'
  end.

(** [match.group(n)]; an unset group ([None] in Python) reads as the
    empty text. *)
Definition group (m : rmatch) (n : nat) : text :=
  match n with
  | O => m_text m
  | _ => default [] (assoc n (m_groups m))
  end.

(** Greedy [c+]: the longest run first, then shorter ones. *)
Fixpoint exec_plus (p : N → bool) (s : text) : list (text * list (nat * text) * text) :=
  match s with
  | [] => []
  | c :: s' =>
      if p c then
        map (λ '(m, g, rest), (c :: m, g, rest)) (exec_plus p s') ++ [([c], [], s')]
      else []
  end.

(** All ways of matching [r] at the start of [s], as
    (matched text, groups, remaining text), in backtracking order. *)
Fixpoint exec (r : regex) (s : text) : list (text * list (nat * text) * text) :=
  match r with
  | Lit l => if startswith l s then [(l, [], drop (length l) s)] else []
  | Cls p => match s with
             | c :: s' => if p c then [([c], [], s')] else []
             | [] => []
             end
  | Plus p => exec_plus p s
  | Cat r1 r2 =>
      flat_map (λ '(m1, g1, s1),
                  map (λ '(m2, g2, s2), (m1 ++ m2, g2 ++ g1, s2)) (exec r2 s1))
               (exec r1 s)
  | Alt r1 r2 => exec r1 s ++ exec r2 s
  | Opt r1 => exec r1 s ++ [([], [], s)]
  | Grp n r1 => map (λ '(m, g, rest), (m, (n, m) :: g, rest)) (exec r1 s)
  end.

Definition to_match (x : text * list (nat * text) * text) : rmatch :=
  MkMatch x.1.1 x.1.2.

(** The match the engine reports at the start of [s]. *)
Definition match_here (r : regex) (s : text) : option rmatch :=
  to_match <$> head (exec r s).

(** The match reported when the engine has to advance (after an empty
    match at this very position). *)
Definition match_here_advancing (r : regex) (s : text) : option rmatch :=
  to_match <$> head (filter (λ x, x.1.1 ≠ []) (exec r s)).

(** [re.sub(r, repl, s)] with a callable [repl] that may update a
    counter or other state of type [A]; [skip] characters of [s] belong
    to the previous match.  Matches are found left to right and do not
    overlap; after an empty match the engine must advance (Python 3.7
    and later). *)
Fixpoint sub_from {A} (r : regex) (repl : rmatch → A → text * A)
    (skip : nat) (s : text) (st : A) : text * A :=
  match s with
  | [] =>
      match skip, match_here r [] with
      | O, Some m => repl m st
      | _, _ => ([], st)
      end
  | c :: s' =>
      match skip with
      | S k => sub_from r repl k s' st
      | O =>
          match match_here r s with
          | None =>
              let '(o, st1) := sub_from r repl 0 s' st in (c :: o, st1)
          | Some m =>
              let '(o1, st1) := repl m st in
              match length (m_text m) with
              | S k =>
                  let '(o, st2) := sub_from r repl k s' st1 in (o1 ++ o, st2)
              | O =>
                  match match_here_advancing r s with
                  | Some m2 =>
                      let '(o2, st2) := repl m2 st1 in
                      let '(o, st3) := sub_from r repl (length (m_text m2) - 1) s' st2 in
                      (o1 ++ o2 ++ o, st3)
                  | None =>
                      let '(o, st2) := sub_from r repl 0 s' st1 in
                      (o1 ++ c :: o, st2)
                  end
              end
          end
      end
  end.

Definition sub {A} (r : regex) (repl : rmatch → A → text * A) (s : text) (st : A)
  : text * A := sub_from r repl 0 s st.

(** [re.sub(pattern, template, s)] with a string template that holds no
    backslash, hence no group reference or escape to expand. *)
Definition sub_str (r : regex) (template : text) (s : text) : text :=
  (sub r (λ _ (u : unit), (template, u)) s tt).1.

(** What replacing every leftmost, non-overlapping occurrence of a
    literal [p] by [r] means: [leftmost p u] says that [p] occurs in
    [u ++ p] at the very end only. *)
Definition leftmost (p u : text) : Prop := ∀ a b, u ++ p = a ++ p ++ b → b = [].

Inductive replaced (p r : text) : text → text → Prop :=
| replaced_none s : ¬ occurs p s → replaced p r s s
| replaced_first u rest out :
    leftmost p u → replaced p r rest out → replaced p r (u ++ p ++ rest) (u ++ r ++ out).

(** No capturing group inside. *)
Fixpoint group_free (r : regex) : bool :=
  match r with
  | Lit _ | Cls _ | Plus _ => true
  | Cat r1 r2 | Alt r1 r2 => group_free r1 && group_free r2
  | Opt r1 => group_free r1
  | Grp _ _ => false
  end.

(** Pattern characters with a special meaning when not escaped. *)
Definition is_meta (c : N) : bool :=
  existsb (N.eqb c) (txt ".^$*+?{}[]|()").

Definition is_ascii_alnum (c : N) : bool :=
  ((48 <=? c) && (c <=? 57) || (65 <=? c) && (c <=? 90) || (97 <=? c) && (c <=? 122))%N.

(** A pattern in which every special character is escaped denotes its
    own text with the escaping backslashes removed.  [None]: the
    pattern is outside that fragment. *)
Fixpoint unescape_from (escaped : bool) (src : text) : option text :=
  match src with
  | [] => if escaped then None else Some []
  | c :: rest =>
      if escaped then
        if is_ascii_alnum c then None else cons c <$> unescape_from false rest
      else if N.eqb c backslash then unescape_from true rest
      else if is_meta c then None
      else cons c <$> unescape_from false rest
  end.

Definition unescape (src : text) : option text := unescape_from false src.

(** [re.compile] on such a pattern. *)
Definition compile_literal (src : text) : regex := Lit (default [] (unescape src)).

End Re.

(** ** The grid-snap patcher: patterns and replacements *)

Module GridSnapText.

(** The raw pattern for [snapToGrid], as in the script. *)
Definition snap_to_grid_pattern : text := txt
"  function snapToGrid\(x: number, y: number\): \{ x: number; y: number \} \{
    if \(!gridSnap\) return \{ x, y \};
    const gridSize = scene\.gridSize \?\? 100;
    const cellWidth = scene\.gridWidth \?\? gridSize;
    const cellHeight = scene\.gridHeight \?\? gridSize;
    return \{
      x: Math\.round\(x / cellWidth\) \* cellWidth,
      y: Math\.round\(y / cellHeight\) \* cellHeight,
    \};
  \}".

Definition snap_to_grid_replacement : text := txt
"  function snapToGrid(x: number, y: number): { x: number; y: number } {
    if (!gridSnap) return { x, y };
    const gridSize = scene.gridSize ?? 100;
    const cellWidth = scene.gridWidth ?? gridSize;
    const cellHeight = scene.gridHeight ?? gridSize;
    const offsetX = scene.gridOffsetX ?? 0;
    const offsetY = scene.gridOffsetY ?? 0;
    return {
      x: Math.round((x - offsetX) / cellWidth) * cellWidth + offsetX,
      y: Math.round((y - offsetY) / cellHeight) * cellHeight + offsetY,
    };
  }".

(** The raw pattern for [snapToGridCenter]. *)
Definition snap_to_grid_center_pattern : text := txt
"  function snapToGridCenter\(x: number, y: number\): \{ x: number; y: number \} \{
    const gridSize = scene\.gridSize \?\? 100;
    const cellWidth = scene\.gridWidth \?\? gridSize;
    const cellHeight = scene\.gridHeight \?\? gridSize;
    // Snap to center of cell \(add half grid size after rounding to corner\)
    return \{
      x: Math\.floor\(x / cellWidth\) \* cellWidth \+ cellWidth / 2,
      y: Math\.floor\(y / cellHeight\) \* cellHeight \+ cellHeight / 2,
    \};
  \}".

Definition snap_to_grid_center_replacement : text := txt
"  function snapToGridCenter(x: number, y: number): { x: number; y: number } {
    const gridSize = scene.gridSize ?? 100;
    const cellWidth = scene.gridWidth ?? gridSize;
    const cellHeight = scene.gridHeight ?? gridSize;
    const offsetX = scene.gridOffsetX ?? 0;
    const offsetY = scene.gridOffsetY ?? 0;
    // Snap to center of cell (add half grid size after rounding to corner)
    return {
      x: Math.floor((x - offsetX) / cellWidth) * cellWidth + cellWidth / 2 + offsetX,
      y: Math.floor((y - offsetY) / cellHeight) * cellHeight + cellHeight / 2 + offsetY,
    };
  }".

(** The texts the two patterns stand for: the functions as they are
    before the patch. *)
Definition snap_to_grid_form : text := default [] (Re.unescape snap_to_grid_pattern).
Definition snap_to_grid_center_form : text :=
  default [] (Re.unescape snap_to_grid_center_pattern).

(** The two substitutions, applied in the script's order. *)
Definition apply_replacements (content : text) : text :=
  let content_updated :=
    Re.sub_str (Re.compile_literal snap_to_grid_pattern) snap_to_grid_replacement content in
  Re.sub_str (Re.compile_literal snap_to_grid_center_pattern)
    snap_to_grid_center_replacement content_updated.

End GridSnapText.

(** ** Files, console and exceptions *)

Abbreviation path := (list (list N)).

Module Sys.

(** A node of the file tree.  A regular file carries whether the
    process may read it, whether it may write it, and its text. *)
Inductive node : Type :=
| Dir
| File (readable writable : bool) (data : text).

(** The file tree, keyed by resolved absolute paths (lists of
    components below the root); what has been printed so far, one
    entry per [print] call; and the paths handed to [open(_, 'w')] so
    far, whether or not the call succeeded. *)
Record world : Type :=
  World { tree : gmap path node; console : list text; opened_for_writing : list path }.

(** A raised exception: an [OSError] with its [errno], [strerror] and
    [filename], or a [ValueError] with its message. *)
Inductive exn : Type :=
| OSError (errno : nat) (strerror filename : text)
| ValueError (msg : text).

Inductive result (A : Type) : Type :=
| Ok (a : A)
| Raise (e : exn).
Arguments Ok {A} a.
Arguments Raise {A} e.

(** Computations that read and write the world and may raise. *)
Definition M (A : Type) : Type := world → result A * world.

Definition ret {A} (a : A) : M A := λ w, (Ok a, w).

Definition bind {A B} (m : M A) (k : A → M B) : M B :=
  λ w, match m w with
       | (Ok a, w1) => k a w1
       | (Raise e, w1) => (Raise e, w1)
       end.

Definition raise {A} (e : exn) : M A := λ w, (Raise e, w).

#[global] Instance M_ret : MRet M := @ret.
#[global] Instance M_bind : MBind M := λ A B k m, bind m k.

(** Code that may raise but does not touch the world. *)
#[global] Instance result_ret : MRet result := @Ok.
#[global] Instance result_bind : MBind result :=
  λ A B k r, match r with Ok a => k a | Raise e => Raise e end.

(** Such code run inside a computation on the world. *)
Definition of_result {A} (r : result A) : M A := λ w, (r, w).

(** [try: m  except Exception as e: ...], with the outcome of [m]
    handed to the code that follows. *)
Definition attempt {A} (m : M A) : M (result A) :=
  λ w, match m w with (r, w1) => (Ok r, w1) end.

Definition print (line : text) : M unit :=
  λ w, (Ok tt, World (tree w) (console w ++ [line]) (opened_for_writing w)).

(** The world after some more lines have been printed. *)
Definition printed (w : world) (lines : list text) : world :=
  World (tree w) (console w ++ lines) (opened_for_writing w).

Definition get_tree : M (gmap path node) := λ w, (Ok (tree w), w).

(** The root is a directory; every other path is what the map says. *)
Definition node_at (t : gmap path node) (p : path) : option node :=
  match p with
  | [] => Some Dir
  | _ => t !! p
  end.

Definition is_dir (t : gmap path node) (p : path) : bool :=
  match node_at t p with Some Dir => true | _ => false end.

Definition path_exists (t : gmap path node) (p : path) : bool :=
  match node_at t p with Some _ => true | None => false end.

(** [Path.parent] *)
Definition parent (p : path) : path := removelast p.

Definition eqb_text (a b : text) : bool :=
  (length a =? length b) && startswith a b.

(** [base / rel]: empty and [.] components of [rel] are dropped, [..]
    is kept; an absolute [rel] replaces [base]. *)
Definition joinpath (base : path) (rel : text) : path :=
  let comps :=
    List.filter (λ c, negb (eqb_text c []) && negb (eqb_text c (txt "."))) (split 47%N rel) in
  if startswith (txt "/") rel then comps else base ++ comps.

(** [Path.resolve()] in a tree without symbolic links. *)
Definition resolve (p : path) : path :=
  fold_left (λ acc c, if eqb_text c (txt "..") then removelast acc else acc ++ [c]) p [].

(** [str(path)] *)
Definition path_str (p : path) : text := txt "/" ++ join (txt "/") p.

(** The path a string names when handed to [open]. *)
Definition path_of_str (s : text) : path := resolve (joinpath [] s).

(** The errors [open] raises, each with the name it was given. *)
Definition no_such_file (p : path) : exn :=
  OSError 2 (txt "No such file or directory") (path_str p).
Definition permission_denied (p : path) : exn :=
  OSError 13 (txt "Permission denied") (path_str p).
Definition is_a_directory (p : path) : exn :=
  OSError 21 (txt "Is a directory") (path_str p).

(** [with open(p, 'r', encoding='utf-8') as f: f.read()] *)
Definition read_file (p : path) : M text :=
  λ w, match node_at (tree w) p with
       | Some (File true _ d) => (Ok d, w)
       | Some (File false _ _) => (Raise (permission_denied p), w)
       | Some Dir => (Raise (is_a_directory p), w)
       | None => (Raise (no_such_file p), w)
       end.

(** [with open(p, 'w', encoding='utf-8') as f: f.write(d)]; a missing
    file is created when its parent is a directory. *)
Definition write_file (p : path) (d : text) : M unit :=
  λ w, let w1 := World (tree w) (console w) (opened_for_writing w ++ [p]) in
       match node_at (tree w) p with
       | Some (File r true _) =>
           (Ok tt, World (<[p := File r true d]> (tree w)) (console w) (opened_for_writing w1))
       | Some (File _ false _) => (Raise (permission_denied p), w1)
       | Some Dir => (Raise (is_a_directory p), w1)
       | None =>
           if is_dir (tree w) (parent p)
           then (Ok tt, World (<[p := File true true d]> (tree w)) (console w)
                          (opened_for_writing w1))
           else (Raise (no_such_file p), w1)
       end.

(** The status the interpreter exits with: the value handed to [exit],
    or 1 after an uncaught exception. *)
Definition exit_status (r : result nat) : nat :=
  match r with Ok n => n | Raise _ => 1 end.

End Sys.
Import Sys.

(** ** The grid-snap patcher: the script *)

Module GridSnap.
Import GridSnapText.

Definition file_path : text :=
  txt "D:/Projects/VTT/apps/web/src/lib/components/SceneCanvas.svelte".

Definition target : path := path_of_str file_path.

(** The body of the script, top to bottom. *)
Definition script : M unit :=
  content ← read_file target;
  let content_updated := apply_replacements content in
  if decide (content_updated = content) then
    print (txt "ERROR: No changes were made. Patterns may not match.");;
    if contains (txt "function snapToGrid") content then
      print (txt "Found snapToGrid function");;
      let idx := default 0 (find (txt "function snapToGrid") content) in
      print (slice idx (idx + 500) content)
    else
      print (txt "Could not find snapToGrid function")
  else
    print (txt "Changes applied successfully");;
    write_file target content_updated;;
    print (txt "Updated " ++ file_path).

(** Running the script as a program: exit status and final world. *)
Definition run (w : world) : nat * world :=
  match script w with
  | (Ok _, w1) => (0, w1)
  | (Raise _, w1) => (1, w1)
  end.

End GridSnap.

(** ** [re.sub] with a callback that may raise *)

Module ReSub.
Import Re.

(** [re.sub(r, repl, s)] with a callable [repl] that keeps a counter
    or other state of type [A] and may raise; an exception raised by
    the callback ends the substitution and is passed on.  The scan is
    that of [Re.sub_from]. *)
Fixpoint sub_from {A} (r : regex) (repl : rmatch → A → result (text * A))
    (skip : nat) (s : text) (st : A) : result (text * A) :=
  match s with
  | [] =>
      match skip, match_here r [] with
      | O, Some m => repl m st
      | _, _ => Ok ([], st)
      end
  | c :: s' =>
      match skip with
      | S k => sub_from r repl k s' st
      | O =>
          match match_here r s with
          | None =>
              '(o, st1) ← sub_from r repl 0 s' st; Ok (c :: o, st1)
          | Some m =>
              '(o1, st1) ← repl m st;
              match length (m_text m) with
              | S k =>
                  '(o, st2) ← sub_from r repl k s' st1; Ok (o1 ++ o, st2)
              | O =>
                  match match_here_advancing r s with
                  | Some m2 =>
                      '(o2, st2) ← repl m2 st1;
                      '(o, st3) ← sub_from r repl (length (m_text m2) - 1) s' st2;
                      Ok (o1 ++ o2 ++ o, st3)
                  | None =>
                      '(o, st2) ← sub_from r repl 0 s' st1; Ok (o1 ++ c :: o, st2)
                  end
              end
          end
      end
  end.

Definition sub {A} (r : regex) (repl : rmatch → A → result (text * A)) (s : text) (st : A)
  : result (text * A) := sub_from r repl 0 s st.

(** [r] matches at no position of [s]. *)
Definition matches_nowhere (r : regex) (s : text) : Prop :=
  ∀ a b, s = a ++ b → match_here r b = None.

(** Scanning [u ++ m_text m ++ rest] from the left, the first position
    at which [r] matches is the end of [u], and the match the engine
    reports there is [m]. *)
Definition first_match (r : regex) (u : text) (m : rmatch) (rest : text) : Prop :=
  (∀ a b, u = a ++ b → b ≠ [] → match_here r (b ++ m_text m ++ rest) = None)
  ∧ match_here r (m_text m ++ rest) = Some m.

(** The text [a] put in front of a result. *)
Definition prepend {A} (a : text) (res : result (text * A)) : result (text * A) :=
  '(o, st) ← res; Ok (a ++ o, st).

End ReSub.

(** ** The import fixer *)

(** Python's [\s] and [\w], and the characters [repr] prints as they
    are, follow the Unicode database outside ASCII; the three tables
    are taken as given. *)
Class UnicodeDB : Type :=
  { uni_space : N → bool; uni_alnum : N → bool; uni_printable : N → bool }.

(** [Path.resolve()] and the [stat] call behind [Path.is_dir()] and
    [Path.exists()] can fail for reasons the file tree does not show: a
    NUL character in the path, a name longer than the file system
    takes, a directory the process may not search.  Which paths are
    refused, and with which exception, is taken as given; it does not
    change while the script runs. *)
Class Platform : Type :=
  { resolve_error : path → option exn; stat_error : path → option exn }.

Module EsmImports.

(** [import_path.endswith('.js')], [startswith('./')], ... *)
Definition needs_js_extension (import_path : text) : bool :=
  if endswith (txt ".js") import_path then false
  else if negb (startswith (txt "./") import_path || startswith (txt "../") import_path)
  then false
  else true.

Definition is_quote (c : N) : bool := N.eqb c squote || N.eqb c dquote.
Definition not_quote (c : N) : bool := negb (is_quote c).
Definition not_rbrace (c : N) : bool := negb (N.eqb c 125%N).
Definition is_star (c : N) : bool := N.eqb c 42%N.

(** The specifier alternative shared by both patterns, without its
    group: [../] or [./] followed by one or more characters that are
    not quotes. *)
Definition relative_specifier : Re.regex :=
  Re.Alt (Re.Cat (Re.Lit (txt "../")) (Re.Plus not_quote))
         (Re.Cat (Re.Lit (txt "./")) (Re.Plus not_quote)).

(** [pattern2]: the text [import(], a quote (group 1), the specifier
    alternative (group 2), a quote (group 3) and [)]. *)
Definition pattern2 : Re.regex :=
  Re.Cat (Re.Lit (txt "import("))
    (Re.Cat (Re.Grp 1 (Re.Cls is_quote))
      (Re.Cat (Re.Grp 2 relative_specifier)
        (Re.Cat (Re.Grp 3 (Re.Cls is_quote)) (Re.Lit (txt ")"))))).

Section WithPlatform.
Context `{Platform}.

(** [pathlib._ignore_error]: the [stat] errors ENOENT, ENOTDIR, EBADF
    and ELOOP, which [is_dir()] and [exists()] answer with [False], as
    they do a [ValueError]. *)
Definition ignore_error (e : exn) : bool :=
  match e with
  | OSError errno _ _ => bool_decide (errno ∈ [2; 20; 9; 40])
  | ValueError _ => true
  end.

(** [Path.resolve()] *)
Definition Path_resolve (p : path) : result path :=
  match resolve_error p with
  | Some e => Raise e
  | None => Ok (resolve p)
  end.

(** [Path.is_dir()] *)
Definition Path_is_dir (t : gmap path node) (p : path) : result bool :=
  match stat_error p with
  | Some e => if ignore_error e then Ok false else Raise e
  | None => Ok (is_dir t p)
  end.

(** [Path.exists()] *)
Definition Path_exists (t : gmap path node) (p : path) : result bool :=
  match stat_error p with
  | Some e => if ignore_error e then Ok false else Raise e
  | None => Ok (path_exists t p)
  end.

Definition add_js_extension (t : gmap path node)
    (import_path : text) (file_dir source_root : path) : result text :=
  if negb (needs_js_extension import_path) then Ok import_path
  else
    resolved_path ← Path_resolve (joinpath file_dir import_path);
    is_directory ← Path_is_dir t resolved_path;
    if is_directory : bool then
      let index_ts := joinpath resolved_path (txt "index.ts") in
      index_exists ← Path_exists t index_ts;
      if index_exists : bool then
        if endswith (txt "/index") import_path
        then Ok (import_path ++ txt ".js")
        else Ok (import_path ++ txt "/index.js")
      else Ok (import_path ++ txt ".js")
    else Ok (import_path ++ txt ".js").

(** The callback of the first pass; the counter is [changes]. *)
Definition replace_import_export (t : gmap path node) (file_dir source_root : path)
    (m : Re.rmatch) (changes : nat) : result (text * nat) :=
  let prefix := Re.group m 1 in
  let quote := Re.group m 2 in
  let path := Re.group m 3 in
  if needs_js_extension path then
    new_path ← add_js_extension t path file_dir source_root;
    Ok (prefix ++ quote ++ new_path ++ quote, changes + 1)
  else Ok (Re.group m 0, changes).

(** The callback of the second pass. *)
Definition replace_dynamic_import (t : gmap path node) (file_dir source_root : path)
    (m : Re.rmatch) (changes : nat) : result (text * nat) :=
  let quote := Re.group m 1 in
  let path := Re.group m 2 in
  if needs_js_extension path then
    new_path ← add_js_extension t path file_dir source_root;
    Ok (txt "import(" ++ quote ++ new_path ++ quote ++ txt ")", changes + 1)
  else Ok (Re.group m 0, changes).

End WithPlatform.

Section WithUnicode.
Context `{UnicodeDB} `{Platform}.

(** [\s] on [str] patterns *)
Definition is_space (c : N) : bool :=
  if (c <? 128)%N
  then ((9 <=? c) && (c <=? 13) || (28 <=? c) && (c <=? 32))%N
  else uni_space c.

(** [\w] on [str] patterns *)
Definition is_word (c : N) : bool :=
  if (c <? 128)%N
  then Re.is_ascii_alnum c || N.eqb c 95%N
  else uni_alnum c.

(** [(?:\s+(?:type\s+)?(?:\{[^}]+\}|[*]|\w+))?] *)
Definition import_clause : Re.regex :=
  Re.Opt
    (Re.Cat (Re.Plus is_space)
      (Re.Cat (Re.Opt (Re.Cat (Re.Lit (txt "type")) (Re.Plus is_space)))
        (Re.Alt (Re.Cat (Re.Lit (txt "{")) (Re.Cat (Re.Plus not_rbrace) (Re.Lit (txt "}"))))
          (Re.Alt (Re.Cls is_star) (Re.Plus is_word))))).

(** [((?:import|export)(?:...)?(?:\s+(?:from|as))?\s+)] without its group *)
Definition statement_prefix : Re.regex :=
  Re.Cat (Re.Alt (Re.Lit (txt "import")) (Re.Lit (txt "export")))
    (Re.Cat import_clause
      (Re.Cat (Re.Opt (Re.Cat (Re.Plus is_space)
                         (Re.Alt (Re.Lit (txt "from")) (Re.Lit (txt "as")))))
        (Re.Plus is_space))).

(** [pattern1]: the statement prefix (group 1), a quote (group 2),
    the specifier alternative (group 3) and a quote (group 4). *)
Definition pattern1 : Re.regex :=
  Re.Cat (Re.Grp 1 statement_prefix)
    (Re.Cat (Re.Grp 2 (Re.Cls is_quote))
      (Re.Cat (Re.Grp 3 relative_specifier) (Re.Grp 4 (Re.Cls is_quote)))).

(** The two passes over the text of one file: new text and number
    of rewrites.  Neither call of [re.sub] is inside a [try]. *)
Definition rewrite_content (t : gmap path node) (file_dir source_root : path)
    (content : text) : result (text * nat) :=
  '(content1, changes1) ←
    ReSub.sub pattern1 (replace_import_export t file_dir source_root) content 0;
  ReSub.sub pattern2 (replace_dynamic_import t file_dir source_root) content1 changes1.

(** Lower-case hexadecimal, [width] digits. *)
Definition hex_digit (d : N) : N := if (d <? 10)%N then (48 + d)%N else (87 + d)%N.

Fixpoint hex (width : nat) (n : N) : text :=
  match width with
  | O => []
  | S w => hex w (n / 16)%N ++ [hex_digit (n mod 16)%N]
  end.

(** [repr] of a [str]: double quotes when the text holds a single
    quote and no double quote, single quotes otherwise; the quote and
    the backslash escaped, and so is every character that is not
    printable. *)
Definition repr_char (quote c : N) : text :=
  if N.eqb c quote || N.eqb c backslash then [backslash; c]
  else if N.eqb c 9%N then txt "\t"
  else if N.eqb c 10%N then txt "\n"
  else if N.eqb c 13%N then txt "\r"
  else if (c <? 32)%N || N.eqb c 127%N then txt "\x" ++ hex 2 c
  else if (c <? 127)%N then [c]
  else if uni_printable c then [c]
  else if (c <? 256)%N then txt "\x" ++ hex 2 c
  else if (c <? 65536)%N then txt "\u" ++ hex 4 c
  else txt "\U" ++ hex 8 c.

Definition repr (s : text) : text :=
  let quote :=
    if existsb (N.eqb squote) s && negb (existsb (N.eqb dquote) s) then dquote else squote in
  [quote] ++ flat_map (repr_char quote) s ++ [quote].

(** [str(e)], as the f-strings format a caught exception. *)
Definition str_exn (e : exn) : text :=
  match e with
  | OSError errno strerror filename =>
      txt "[Errno " ++ show_nat errno ++ txt "] " ++ strerror ++ txt ": " ++ repr filename
  | ValueError msg => msg
  end.

Definition fix_imports_in_file (file_path source_root : path) : M (bool * nat) :=
  r ← attempt (read_file file_path);
  match r with
  | Raise e =>
      print (txt "Error reading " ++ path_str file_path ++ txt ": " ++ str_exn e);;
      mret (false, 0)
  | Ok original_content =>
      t ← get_tree;
      let file_dir := parent file_path in
      '(content, changes) ←
        of_result (rewrite_content t file_dir source_root original_content);
      if decide (content ≠ original_content) then
        r ← attempt (write_file file_path content);
        match r with
        | Ok _ => mret (true, changes)
        | Raise e =>
            print (txt "Error writing " ++ path_str file_path ++ txt ": " ++ str_exn e);;
            mret (false, 0)
        end
      else mret (false, 0)
  end.

(** [directory.rglob('*.ts')]: every entry below [directory] whose
    name ends in [.ts]. *)
Definition rglob_ts (t : gmap path node) (directory : path) : list path :=
  List.filter
    (λ p, (length directory <? length p)
          && bool_decide (take (length directory) p = directory)
          && endswith (txt ".ts") (List.last p []))
    (elements (dom t)).

(** The loop over [ts_files]; the accumulator is
    [(files_modified, total_changes)]. *)
Fixpoint for_each_file (directory : path) (ts_files : list path) (acc : nat * nat)
  : M (nat * nat) :=
  match ts_files with
  | [] => mret acc
  | file_path :: rest =>
      '(was_modified, num_changes) ← fix_imports_in_file file_path directory;
      if was_modified : bool then
        let rel_path := drop (length directory) file_path in
        print (txt "  [OK] " ++ join (txt "/") rel_path ++ txt " ("
               ++ show_nat num_changes ++ txt " changes)");;
        for_each_file directory rest (acc.1 + 1, acc.2 + num_changes)
      else for_each_file directory rest acc
  end.

Definition fix_imports_in_directory (directory : path) : M (nat * nat) :=
  t ← get_tree;
  let ts_files := rglob_ts t directory in
  print (txt "
Processing " ++ show_nat (length ts_files) ++ txt " TypeScript files in "
         ++ path_str directory ++ txt "...");;
  for_each_file directory ts_files (0, 0).

Definition directories (vtt_root : path) : list path :=
  [ vtt_root ++ [txt "apps"; txt "server"; txt "src"];
    vtt_root ++ [txt "packages"; txt "shared"; txt "src"];
    vtt_root ++ [txt "packages"; txt "database"; txt "src"] ].

(** The loop over [directories]; the accumulator is
    [(total_files, total_changes)]. *)
Fixpoint for_each_directory (dirs : list path) (acc : nat * nat) : M (nat * nat) :=
  match dirs with
  | [] => mret acc
  | directory :: rest =>
      t ← get_tree;
      found ← of_result (Path_exists t directory);
      if negb found then
        print (txt "
[WARNING] Directory not found: " ++ path_str directory);;
        for_each_directory rest acc
      else
        '(files_modified, changes) ← fix_imports_in_directory directory;
        for_each_directory rest (acc.1 + files_modified, acc.2 + changes)
  end.

Definition banner : text := repeat_char 61%N 70.

(** [main()], for the script stored at [script_file]. *)
Definition main (script_file : path) : M nat :=
  let script_dir := parent script_file in
  let vtt_root := parent (parent script_dir) in
  print banner;;
  print (txt "ESM Import Fixer - Adding .js extensions to relative imports");;
  print banner;;
  '(total_files, total_changes) ← for_each_directory (directories vtt_root) (0, 0);
  print ([10%N] ++ banner);;
  print (txt "Summary:");;
  print (txt "  Files modified: " ++ show_nat total_files);;
  print (txt "  Total changes: " ++ show_nat total_changes);;
  print banner;;
  mret (if 0 <? total_files then 0 else 1).

(** [exit(main())] *)
Definition run (script_file : path) (w : world) : nat * world :=
  let '(r, w1) := main script_file w in (exit_status r, w1).

End WithUnicode.

End EsmImports.

(** ** What the passes and a run of the import fixer are expected to do *)

Module EsmReport.
Import Re ReSub EsmImports.

(** The first pass rewrites static [import]/[export] statements, the
    second dynamic [import(...)] calls. *)
Inductive pass_kind : Type := Static | Dynamic.

(** The parts of a matched statement: its specifier, the quote that
    opens the literal, the text before that quote and the text after
    the closing quote. *)
Definition specifier (k : pass_kind) (m : rmatch) : text :=
  match k with Static => group m 3 | Dynamic => group m 2 end.

Definition opening_quote (k : pass_kind) (m : rmatch) : text :=
  match k with Static => group m 2 | Dynamic => group m 1 end.

Definition before_quote (k : pass_kind) (m : rmatch) : text :=
  match k with Static => group m 1 | Dynamic => txt "import(" end.

Definition after_quote (k : pass_kind) : text :=
  match k with Static => [] | Dynamic => txt ")" end.

(** The matched text is the text before the literal, a quote of either
    kind, the specifier, a quote of either kind and the text after. *)
Definition statement (k : pass_kind) (m : rmatch) : Prop :=
  ∃ q q',
    opening_quote k m = [q]
    ∧ (q = squote ∨ q = dquote) ∧ (q' = squote ∨ q' = dquote)
    ∧ m_text m = before_quote k m ++ [q] ++ specifier k m ++ [q'] ++ after_quote k.

(** The classification rule in the words of the specification. *)
Definition relative (spec : text) : Prop :=
  (∃ r, spec = txt "./" ++ r) ∨ (∃ r, spec = txt "../" ++ r).

Definition ends_with_js (spec : text) : Prop := ∃ a, spec = a ++ txt ".js".

(** The name of a file or directory: not empty, not [.] or [..], and
    without a [/]. *)
Definition plain_name (name : text) : Prop :=
  name ≠ [] ∧ name ≠ txt "." ∧ name ≠ txt ".." ∧ 47%N ∉ name.

Section WithUnicode.
Context `{UnicodeDB} `{Platform}.

Definition pattern_of (k : pass_kind) : regex :=
  match k with Static => pattern1 | Dynamic => pattern2 end.

(** What one pass makes of a text, statement by statement from the
    left: text outside the matched statements is copied; a statement
    whose specifier needs no extension is copied; one whose specifier
    needs it comes out with what [add_js_extension] returns between two
    copies of the opening quote, and counts as one change; if
    [add_js_extension] raises there, the pass raises. *)
Inductive pass (t : gmap path node) (file_dir source_root : path) (k : pass_kind)
  : text → nat → result (text * nat) → Prop :=
| pass_end s n :
    matches_nowhere (pattern_of k) s →
    pass t file_dir source_root k s n (Ok (s, n))
| pass_keep u m rest n res :
    first_match (pattern_of k) u m rest → statement k m →
    needs_js_extension (specifier k m) = false →
    pass t file_dir source_root k rest n res →
    pass t file_dir source_root k (u ++ m_text m ++ rest) n (prepend (u ++ m_text m) res)
| pass_rewrite u m rest n new_path res :
    first_match (pattern_of k) u m rest → statement k m →
    needs_js_extension (specifier k m) = true →
    add_js_extension t (specifier k m) file_dir source_root = Ok new_path →
    pass t file_dir source_root k rest (n + 1) res →
    pass t file_dir source_root k (u ++ m_text m ++ rest) n
      (prepend (u ++ before_quote k m ++ opening_quote k m ++ new_path
                  ++ opening_quote k m ++ after_quote k) res)
| pass_abort u m rest n e :
    first_match (pattern_of k) u m rest → statement k m →
    needs_js_extension (specifier k m) = true →
    add_js_extension t (specifier k m) file_dir source_root = Raise e →
    pass t file_dir source_root k (u ++ m_text m ++ rest) n (Raise e).

(** The same on the texts alone, with the rule of the specification
    in place of [needs_js_extension]: a matched specifier comes out
    extended exactly when it is relative and does not end with [.js],
    and every other matched statement comes out as it was. *)
Inductive classified (k : pass_kind) : text → text → Prop :=
| classified_end s :
    matches_nowhere (pattern_of k) s → classified k s s
| classified_keep u m rest out :
    first_match (pattern_of k) u m rest → statement k m →
    ¬ (relative (specifier k m) ∧ ¬ ends_with_js (specifier k m)) →
    classified k rest out →
    classified k (u ++ m_text m ++ rest) (u ++ m_text m ++ out)
| classified_rewrite u m rest new_path out :
    first_match (pattern_of k) u m rest → statement k m →
    relative (specifier k m) ∧ ¬ ends_with_js (specifier k m) →
    new_path = specifier k m ++ txt ".js" ∨ new_path = specifier k m ++ txt "/index.js" →
    classified k rest out →
    classified k (u ++ m_text m ++ rest)
      (u ++ before_quote k m ++ opening_quote k m ++ new_path
         ++ opening_quote k m ++ after_quote k ++ out).

(** What the two passes make of the file at [f]; a file that cannot
    be read is not put through them. *)
Definition file_passes (t : gmap path node) (f : path) : result (text * nat) :=
  match node_at t f with
  | Some (File true _ d) => rewrite_content t (parent f) [] d
  | _ => Ok ([], 0)
  end.

(** A path lookup raises while the file at [f] is put through the
    passes. *)
Definition aborts (t : gmap path node) (f : path) : bool :=
  match file_passes t f with Raise _ => true | Ok _ => false end.

(** The number of specifiers the two passes rewrite in the file at
    [f]; 0 for a file that cannot be read. *)
Definition rewrite_count (t : gmap path node) (f : path) : nat :=
  match file_passes t f with Ok (_, n) => n | Raise _ => 0 end.

(** The text the two passes make of the file at [f]. *)
Definition rewritten_text (t : gmap path node) (f : path) : text :=
  match file_passes t f with Ok (out, _) => out | Raise _ => [] end.

(** The file at [f] can be read, holds a specifier to rewrite, and
    can be written. *)
Definition written_back (t : gmap path node) (f : path) : bool :=
  match node_at t f with
  | Some (File true true _) => 0 <? rewrite_count t f
  | _ => false
  end.

(** [directory.exists()] answers, and answers yes. *)
Definition found (t : gmap path node) (d : path) : bool :=
  match Path_exists t d with Ok b => b | Raise _ => false end.



Definition files_modified (t : gmap path node) (files : list path) : nat :=
  length (List.filter (written_back t) files).

Definition total_changes (t : gmap path node) (files : list path) : nat :=
  list_sum (map (rewrite_count t) (List.filter (written_back t) files)).

(** An exception that comes from a path lookup: [resolve()] raised it
    on some path, or the [stat] behind [is_dir()] and [exists()] failed
    with it and it is not one of the errors they answer with
    [False]. *)
Definition raised_by_lookup (e : exn) : Prop :=
  (∃ p, resolve_error p = Some e) ∨ (∃ p, stat_error p = Some e ∧ ignore_error e = false).



End WithUnicode.

(** Two trees with the same entries of the same kinds. *)
Definition same_shape (t t' : gmap path node) : Prop :=
  dom t = dom t' ∧ ∀ p, is_dir t p = is_dir t' p.

End EsmReport.

(** An instance of the tables for text whose spaces, letters and
    printable characters are all ASCII. *)
Definition ascii_db : UnicodeDB :=
  {| uni_space := λ _, false; uni_alnum := λ _, false; uni_printable := λ _, false |}.

(** The number of bytes of a text in UTF-8. *)
Definition utf8_length (s : text) : nat :=
  list_sum (map (λ c, if (c <? 128)%N then 1 else if (c <? 2048)%N then 2
                      else if (c <? 65536)%N then 3 else 4) s).

(** What CPython 3.11 on Linux refuses: [resolve()] raises
    [ValueError] on a path with a NUL character, and [stat] fails with
    ENAMETOOLONG on a name of more than 255 bytes and on a path of more
    than 4095. *)
Definition linux : Platform :=
  {| resolve_error := λ p,
       if existsb (existsb (N.eqb 0%N)) p
       then Some (ValueError (txt "embedded null byte")) else None;
     stat_error := λ p,
       if existsb (existsb (N.eqb 0%N)) p
       then Some (ValueError (txt "embedded null byte"))
       else if existsb (λ c, 255 <? utf8_length c) p || (4095 <? utf8_length (path_str p))
       then Some (OSError 36 (txt "File name too long") (path_str p))
       else None |}.

Module Samples.
Import GridSnapText GridSnap.

(** A component file holding both functions as they are before the
    patch. *)
Definition unpatched_component : text :=
  txt "<script lang=ts>
" ++ snap_to_grid_form ++ txt "

" ++ snap_to_grid_center_form ++ txt "
</script>
".

Definition unpatched_world : world :=
  World {[ target := File true true unpatched_component ]} [] [].

(** The same file, read-only. *)
Definition read_only_world : world :=
  World {[ target := File true false unpatched_component ]} [] [].

(** A component file that holds neither function. *)
Definition unrelated_world : world :=
  World {[ target := File true true (txt "<script></script>") ]} [] [].

(** No component file at all. *)
Definition empty_world : world := World ∅ [] [].

(** A component file whose [snapToGrid] was reformatted. *)
Definition reformatted_component : text :=
  txt "<script>
function snapToGrid(x, y) { return { x, y }; }
</script>".

Definition reformatted_world : world :=
  World {[ target := File true true reformatted_component ]} [] [].

(** A checkout at [/p] with one server source file that imports from
    a directory with an [index.ts], from a plain module, through a
    dynamic import and from a package. *)
Definition src : path := [txt "p"; txt "apps"; txt "server"; txt "src"].

Definition script_file : path :=
  [txt "p"; txt "scripts"; txt "utilities"; txt "fix_esm_imports.py"].

Definition app_ts : text := txt "import { a } from './foo';
import type { T } from './foo/index';
export * from './bar.js';
import z from 'zod';
const m = await import('./dyn');
".

Definition project (writable : bool) : world :=
  World (list_to_map
           [ (src, Dir);
             (src ++ [txt "foo"], Dir);
             (src ++ [txt "foo"; txt "index.ts"], File true true (txt "export const a = 1;"));
             (src ++ [txt "app.ts"], File true writable app_ts) ])
        [] [].

(** A checkout whose one source file imports from a module with a
    name of 300 characters, and one with a NUL character in a
    specifier. *)
Definition long_name : text := repeat_char 97%N 300.

Definition long_ts : text := txt "import { a } from './" ++ long_name ++ txt "';
".

Definition long_project : world :=
  World (list_to_map
           [ (src, Dir);
             (src ++ [txt "long.ts"], File true true long_ts) ])
        [] [].

Definition nul_ts : text := txt "export * from './a" ++ [0%N] ++ txt "b';
".

Definition nul_project : world :=
  World (list_to_map
           [ (src, Dir);
             (src ++ [txt "nul.ts"], File true true nul_ts) ])
        [] [].

End Samples.

(** * Properties *)

(** ** Text *)

Section TextFacts.

Lemma startswith_true p s : startswith p s = true ↔ ∃ r, s = p ++ r.
Proof.
  revert s; induction p as [|a p IH]; intros s; simpl.
  - split; [intros _; by exists s | done].
  - destruct s as [|b s]; simpl.
    + split; [done | intros [r Hr]; discriminate].
    + rewrite andb_true_iff, N.eqb_eq, IH. split.
      * intros [-> [r ->]]. by exists r.
      * intros [r Hr]. injection Hr as -> ->. eauto.
Qed.

Lemma startswith_app p r : startswith p (p ++ r) = true.
Proof. apply startswith_true. by exists r. Qed.

Lemma startswith_drop p s : startswith p s = true → s = p ++ drop (length p) s.
Proof.
  intros [r ->]%startswith_true. by rewrite drop_app_length.
Qed.

Lemma startswith_nil_r p : p ≠ [] → startswith p [] = false.
Proof. by destruct p. Qed.

Lemma endswith_true p s : endswith p s = true ↔ ∃ a, s = a ++ p.
Proof.
  unfold endswith. rewrite andb_true_iff, Nat.leb_le, startswith_true. split.
  - intros [Hle [r Hr]].
    assert (Hlen : length (drop (length s - length p) s) = length p)
      by (rewrite length_drop; lia).
    rewrite Hr, length_app in Hlen.
    assert (r = []) as -> by (apply length_zero_iff_nil; lia).
    rewrite app_nil_r in Hr.
    exists (take (length s - length p) s).
    rewrite <- (take_drop (length s - length p) s) at 1. by f_equal.
  - intros [a ->]. rewrite length_app. split; [lia|].
    exists []. replace (length a + length p - length p) with (length a) by lia.
    by rewrite drop_app_length, app_nil_r.
Qed.

Lemma endswith_app a p : endswith p (a ++ p) = true.
Proof. apply endswith_true. by exists a. Qed.

Lemma find_Some p s i : find p s = Some i → ∃ a b, s = a ++ p ++ b ∧ length a = i.
Proof.
  revert i; induction s as [|c s IH]; intros i; simpl.
  - destruct (startswith p []) eqn:E; [|done].
    intros [= <-]. apply startswith_true in E as [r ->]. by exists [], r.
  - destruct (startswith p (c :: s)) eqn:E.
    + intros [= <-]. apply startswith_true in E as [r ->]. by exists [], r.
    + destruct (find p s) as [j|] eqn:F; [|done]. simpl. intros [= <-].
      destruct (IH j eq_refl) as (a & b & -> & <-). by exists (c :: a), b.
Qed.

Lemma find_None p s : find p s = None → ¬ occurs p s.
Proof.
  induction s as [|c s IH]; simpl.
  - destruct (startswith p []) eqn:E; [done|]. intros _ (a & b & Hab).
    destruct a; [|done]. simpl in Hab. subst.
    by rewrite (proj2 (startswith_true _ _)) in E by eauto.
  - destruct (startswith p (c :: s)) eqn:E; [done|].
    destruct (find p s) eqn:F; [done|]. intros _ (a & b & Hab).
    destruct a as [|c' a]; simpl in Hab.
    + by rewrite (proj2 (startswith_true _ _)) in E by eauto.
    + injection Hab as -> ->. apply IH; [done|]. by exists a, b.
Qed.

Lemma contains_true p s : contains p s = true ↔ occurs p s.
Proof.
  unfold contains. destruct (find p s) eqn:F.
  - split; [|done]. intros _. apply find_Some in F as (a & b & -> & _). by exists a, b.
  - split; [done|]. intros Ho. by apply find_None in F.
Qed.

Lemma contains_false p s : contains p s = false ↔ ¬ occurs p s.
Proof. rewrite <- contains_true. by destruct (contains p s). Qed.

Lemma occurs_app_l p a b : occurs p a → occurs p (a ++ b).
Proof. intros (x & y & ->). exists x, (y ++ b). by rewrite <- !app_assoc. Qed.

Lemma occurs_app_r p a b : occurs p b → occurs p (a ++ b).
Proof. intros (x & y & ->). exists (a ++ x), y. by rewrite <- !app_assoc. Qed.

Lemma occurs_nil_inv p : occurs p [] → p = [].
Proof.
  intros (a & b & Hab). symmetry in Hab.
  apply app_eq_nil in Hab as [_ Hab]. by apply app_eq_nil in Hab as [? _].
Qed.

(** An occurrence inside [x ++ y] lies in [x], lies in [y], or
    straddles the seam. *)
Lemma occurs_app_inv q x y :
  occurs q (x ++ y) →
  occurs q x ∨ occurs q y ∨
  ∃ q1 q2, q = q1 ++ q2 ∧ q1 ≠ [] ∧ q2 ≠ [] ∧ (∃ a, x = a ++ q1) ∧ (∃ b, y = q2 ++ b).
Proof.
  intros (a & b & Hab).
  apply app_eq_app in Hab as [l [[-> Hl]|[-> ->]]].
  - symmetry in Hl. apply app_eq_app in Hl as [l' [[-> ->]|[-> ->]]].
    + left. by exists a, l'.
    + destruct l as [|c l]; [right; left; by exists [], b|].
      destruct l' as [|c' l'].
      * left. exists a, []. by rewrite !app_nil_r.
      * right; right. exists (c :: l), (c' :: l'). split_and!; eauto.
  - right; left. by exists l, b.
Qed.

Lemma overlaps_false a b :
  overlaps a b = false →
  ∀ x, x ≠ [] → (∃ u, a = u ++ x) → (∃ v, b = x ++ v) → False.
Proof.
  unfold overlaps. intros Hov x Hx [u ->] [v ->].
  assert (existsb (λ k, startswith (drop k (u ++ x)) (x ++ v))
            (seq 0 (length (u ++ x))) = true) as Habs; [|congruence].
  apply existsb_exists. exists (length u). split.
  - apply in_seq. rewrite length_app. destruct x; [done|]. simpl. lia.
  - rewrite drop_app_length. apply startswith_app.
Qed.

End TextFacts.

(** ** The matcher and [re.sub] *)

Section ReFacts.
Import Re.

Lemma exec_plus_sound p s m g rest :
  In (m, g, rest) (exec_plus p s) → s = m ++ rest ∧ g = [] ∧ m ≠ [].
Proof.
  revert m g rest; induction s as [|c s IH]; intros m g rest; simpl; [done|].
  destruct (p c); [|done]. rewrite in_app_iff, in_map_iff. intros [Hin|Hin].
  - destruct Hin as ([[m' g'] rest'] & [= <- <- <-] & Hin).
    apply IH in Hin as (-> & -> & _). done.
  - destruct Hin as [[= <- <- <-]|[]]. done.
Qed.

(** Whatever the matcher returns is a split of the text it was given. *)
Lemma exec_sound r s m g rest : In (m, g, rest) (exec r s) → s = m ++ rest.
Proof.
  revert s m g rest; induction r as [l|p|p|r1 IH1 r2 IH2|r1 IH1 r2 IH2|r1 IH1|n r1 IH1];
    intros s m g rest; simpl.
  - destruct (startswith l s) eqn:E; [|done]. intros [[= <- <- <-]|[]].
    by apply startswith_drop.
  - destruct s as [|c s]; [done|]. destruct (p c); [|done]. by intros [[= <- <- <-]|[]].
  - intros Hin. by apply exec_plus_sound in Hin as (-> & _).
  - rewrite in_flat_map. intros ([[m1 g1] s1] & Hin1 & Hin2).
    apply in_map_iff in Hin2 as ([[m2 g2] s2] & [= <- <- <-] & Hin2).
    apply IH1 in Hin1 as ->. apply IH2 in Hin2 as ->. by rewrite app_assoc.
  - rewrite in_app_iff. intros [Hin|Hin]; eauto.
  - rewrite in_app_iff. intros [Hin|[[= <- <- <-]|[]]]; eauto.
  - rewrite in_map_iff. intros ([[m1 g1] s1] & [= <- <- <-] & Hin). eauto.
Qed.

Lemma exec_group_free r s m g rest :
  group_free r = true → In (m, g, rest) (exec r s) → g = [].
Proof.
  revert s m g rest; induction r as [l|p|p|r1 IH1 r2 IH2|r1 IH1 r2 IH2|r1 IH1|n r1 IH1];
    intros s m g rest; simpl; intros Hgf.
  - destruct (startswith l s); [|done]. by intros [[= <- <- <-]|[]].
  - destruct s as [|c s]; [done|]. destruct (p c); [|done]. by intros [[= <- <- <-]|[]].
  - intros Hin. by apply exec_plus_sound in Hin as (_ & -> & _).
  - apply andb_true_iff in Hgf as [Hg1 Hg2].
    rewrite in_flat_map. intros ([[m1 g1] s1] & Hin1 & Hin2).
    apply in_map_iff in Hin2 as ([[m2 g2] s2] & [= <- <- <-] & Hin2).
    by rewrite (IH1 _ _ _ _ Hg1 Hin1), (IH2 _ _ _ _ Hg2 Hin2).
  - apply andb_true_iff in Hgf as [Hg1 Hg2].
    rewrite in_app_iff. intros [Hin|Hin]; eauto.
  - rewrite in_app_iff. intros [Hin|[[= <- <- <-]|[]]]; eauto.
  - done.
Qed.

Lemma match_here_Some r s m :
  match_here r s = Some m → ∃ rest, In (m_text m, m_groups m, rest) (exec r s).
Proof.
  unfold match_here. destruct (head (exec r s)) as [[[mt g] rest]|] eqn:E; [|done].
  intros [= <-]. apply head_Some_elem_of, list_elem_of_In in E. by exists rest.
Qed.

Lemma match_here_advancing_Some r s m :
  match_here_advancing r s = Some m →
  m_text m ≠ [] ∧ ∃ rest, In (m_text m, m_groups m, rest) (exec r s).
Proof.
  unfold match_here_advancing.
  destruct (head (filter _ (exec r s))) as [[[mt g] rest]|] eqn:E; [|done].
  intros [= <-]. apply head_Some_elem_of, list_elem_of_filter in E as [Hne Hin].
  apply list_elem_of_In in Hin. split; [done|by exists rest].
Qed.

(** Characters that belong to the previous match are passed over. *)
Lemma sub_from_skip {A} r (repl : rmatch → A → text * A) s k st :
  k ≤ length s → sub_from r repl k s st = sub_from r repl 0 (drop k s) st.
Proof.
  revert k; induction s as [|c s IH]; intros k Hk.
  - simpl in Hk. by replace k with 0 by lia.
  - destruct k as [|k]; [done|]. simpl in *. apply IH. lia.
Qed.

(** Replacement functions that agree give the same result. *)
Lemma sub_from_ext {A} r (f g : rmatch → A → text * A) :
  (∀ m st, f m st = g m st) → ∀ s k st, sub_from r f k s st = sub_from r g k s st.
Proof.
  intros Hfg. induction s as [|c s IH]; intros k st; simpl.
  - destruct k; [|done]. destruct (match_here r []); [apply Hfg|done].
  - destruct k as [|k]; [|apply IH].
    destruct (match_here r (c :: s)) as [m|]; [|by rewrite IH].
    rewrite Hfg. destruct (g m st) as [o1 st1].
    destruct (length (m_text m)); [|by rewrite IH].
    destruct (match_here_advancing r (c :: s)) as [m2|]; [|by rewrite IH].
    rewrite Hfg. destruct (g m2 st1) as [o2 st2]. by rewrite IH.
Qed.

End ReFacts.

(** ** Substituting for a literal pattern *)

Section LiteralSub.
Import Re.

Variables p r : text.
Hypothesis p_nonempty : p ≠ [].

Lemma match_here_Lit s :
  match_here (Lit p) s = if startswith p s then Some (MkMatch p []) else None.
Proof. unfold match_here; simpl. by destruct (startswith p s). Qed.

Lemma sub_lit_nil : sub_str (Lit p) r [] = [].
Proof.
  unfold sub_str, sub; simpl. by rewrite match_here_Lit, startswith_nil_r.
Qed.

Lemma sub_lit_miss c s :
  startswith p (c :: s) = false →
  sub_str (Lit p) r (c :: s) = c :: sub_str (Lit p) r s.
Proof.
  intros E. unfold sub_str, sub. cbn [sub_from].
  rewrite match_here_Lit, E. by destruct (sub_from _ _ 0 s tt).
Qed.

Lemma sub_lit_hit s rest :
  s = p ++ rest → sub_str (Lit p) r s = r ++ sub_str (Lit p) r rest.
Proof.
  intros ->. assert (E : startswith p (p ++ rest) = true) by apply startswith_app.
  assert (Hlen : ∃ k, length p = S k ∧ k ≤ length (drop 1 (p ++ rest))
                    ∧ drop k (drop 1 (p ++ rest)) = rest).
  { destruct p as [|c p']; [done|]. exists (length p'). simpl.
    rewrite drop_0, length_app, drop_app_length. split_and!; [done|lia|done]. }
  destruct Hlen as (k & Hk & Hle & Hdrop).
  unfold sub_str, sub. destruct (p ++ rest) as [|c s] eqn:Es.
  { destruct p; done. }
  cbn [sub_from]. rewrite match_here_Lit, E. cbn. rewrite Hk.
  simpl in Hle, Hdrop. rewrite drop_0 in Hle, Hdrop.
  rewrite sub_from_skip, Hdrop by done.
  by destruct (sub_from _ _ 0 rest tt).
Qed.

Lemma not_occurs_cons c s :
  startswith p (c :: s) = false → ¬ occurs p s → ¬ occurs p (c :: s).
Proof.
  intros E Hs (a & b & Hab). destruct a as [|c' a]; simpl in Hab.
  - by rewrite (proj2 (startswith_true _ _)) in E by eauto.
  - injection Hab as -> ->. apply Hs. by exists a, b.
Qed.

Lemma leftmost_nil : leftmost p [].
Proof.
  intros a b Hab. simpl in Hab.
  assert (Hlen : length p = length (a ++ p ++ b)) by congruence.
  rewrite !length_app in Hlen. apply length_zero_iff_nil. lia.
Qed.

Lemma leftmost_cons c u rest :
  startswith p (c :: u ++ p ++ rest) = false → leftmost p u → leftmost p (c :: u).
Proof.
  intros E Hu a b Hab. destruct a as [|c' a]; simpl in Hab.
  - exfalso. rewrite (proj2 (startswith_true _ _)) in E; [done|].
    exists (b ++ rest). transitivity ((c :: u ++ p) ++ rest).
    + simpl. by rewrite <- app_assoc.
    + by rewrite Hab, <- app_assoc.
  - injection Hab as -> Hab. eauto.
Qed.

(** [re.sub] with a literal pattern replaces the leftmost occurrence
    and carries on behind it. *)
Lemma sub_lit_replaced s : replaced p r s (sub_str (Lit p) r s).
Proof.
  remember (length s) as n eqn:Hn. revert s Hn.
  induction n as [n IH] using lt_wf_ind. intros s Hn.
  destruct s as [|c s].
  - rewrite sub_lit_nil. constructor. intros Ho%occurs_nil_inv. done.
  - destruct (startswith p (c :: s)) eqn:E.
    + apply startswith_true in E as [rest E].
      rewrite (sub_lit_hit _ _ E), E.
      apply (replaced_first p r [] rest); [apply leftmost_nil|].
      apply (IH (length rest)); [|done].
      rewrite Hn, E, length_app. destruct p; [done|]. simpl. lia.
    + rewrite (sub_lit_miss _ _ E).
      assert (Hs : replaced p r s (sub_str (Lit p) r s))
        by (apply (IH (length s)); [subst; simpl; lia|done]).
      destruct Hs as [s Hno|u rest out Hu Hrest].
      * constructor. by apply not_occurs_cons.
      * apply (replaced_first p r (c :: u) rest out); [|done].
        by apply (leftmost_cons _ _ rest).
Qed.

Lemma leftmost_not_occurs u : leftmost p u → ¬ occurs p u.
Proof.
  intros Hu (a & b & ->). specialize (Hu a (b ++ p)).
  rewrite <- !app_assoc in Hu. specialize (Hu eq_refl).
  apply app_eq_nil in Hu as [_ ?]. done.
Qed.

(** Without an occurrence nothing is replaced. *)
Lemma replaced_absent s out : ¬ occurs p s → replaced p r s out → out = s.
Proof.
  intros Hno Hrep. destruct Hrep as [s _|u rest out' _ _]; [done|].
  exfalso. apply Hno. by exists u, rest.
Qed.

(** With an occurrence the replacement text shows up. *)
Lemma replaced_present s out : occurs p s → replaced p r s out → occurs r out.
Proof.
  intros Ho Hrep. destruct Hrep as [s Hno|u rest out' _ _]; [done|]. by exists u, out'.
Qed.

(** A text [q] that cannot come about across a replacement, and does
    not sit in the parts left alone, is absent from the result. *)
Lemma replaced_free q s out :
  contains q r = false → overlaps r q = false → overlaps q r = false →
  length q ≤ length r →
  (q = p ∨ ¬ occurs q s) →
  replaced p r s out → ¬ occurs q out.
Proof.
  intros Hin%contains_false Hrq Hqr Hlen Hseg Hrep.
  induction Hrep as [s Hno|u rest out Hu Hrest IH].
  - by destruct Hseg as [->|].
  - assert (IH' : ¬ occurs q out).
    { apply IH. destruct Hseg as [->|Hs]; [by left|right].
      intros Ho. apply Hs. by do 2 apply occurs_app_r. }
    intros [Ho|[Ho|Ho]]%occurs_app_inv.
    + destruct Hseg as [->|Hs]; [by apply leftmost_not_occurs in Hu|].
      apply Hs. by apply occurs_app_l.
    + apply occurs_app_inv in Ho as [Ho|[Ho|Ho]]; [done..|].
      destruct Ho as (q1 & q2 & -> & Hq1 & _ & Hsuf & _).
      apply (overlaps_false _ _ Hrq q1); eauto.
    + destruct Ho as (q1 & q2 & -> & Hq1 & Hq2 & _ & [b Hb]).
      rewrite length_app in Hlen.
      apply app_eq_app in Hb as [l [[-> _]|[-> _]]].
      * apply (overlaps_false _ _ Hqr q2); eauto.
      * rewrite length_app in Hlen. destruct q1; [done|]. simpl in Hlen. lia.
Qed.

(** A text [q] that cannot overlap the pattern survives the
    substitution. *)
Lemma replaced_keeps q s out :
  apart q p = true → occurs q s → replaced p r s out → occurs q out.
Proof.
  unfold apart. rewrite !andb_true_iff, !negb_true_iff.
  intros [[[Hqp Hpq] Hqinp%contains_false] Hpinq%contains_false] Ho Hrep.
  induction Hrep as [s Hno|u rest out Hu Hrest IH]; [done|].
  apply occurs_app_inv in Ho as [Ho|[Ho|Ho]].
  - by apply occurs_app_l.
  - apply occurs_app_inv in Ho as [Ho|[Ho|Ho]]; [done| |].
    + by do 2 apply occurs_app_r; apply IH.
    + destruct Ho as (q1 & q2 & -> & Hq1 & _ & Hsuf & _).
      destruct (overlaps_false _ _ Hpq q1); eauto.
  - destruct Ho as (q1 & q2 & -> & Hq1 & Hq2 & _ & [b Hb]).
    apply app_eq_app in Hb as [l [[-> _]|[-> _]]].
    + destruct (overlaps_false _ _ Hqp q2); eauto.
    + destruct Hpinq. by exists q1, l.
Qed.

End LiteralSub.

(** ** The grid-snap patcher *)

Section GridSnapFacts.
Import Re GridSnapText GridSnap.

(** Both patterns escape every special character, so each matches one
    fixed text. *)
Lemma patterns_are_literal :
  unescape snap_to_grid_pattern = Some snap_to_grid_form
  ∧ unescape snap_to_grid_center_pattern = Some snap_to_grid_center_form.
Proof. split; vm_compute; reflexivity. Qed.

(** Neither replacement holds a backslash, so [re.sub] inserts it as
    it stands. *)
Lemma replacements_are_plain :
  existsb (N.eqb backslash) snap_to_grid_replacement = false
  ∧ existsb (N.eqb backslash) snap_to_grid_center_replacement = false.
Proof. split; vm_compute; reflexivity. Qed.

Lemma snap_to_grid_form_nonempty : snap_to_grid_form ≠ [].
Proof. intros E. apply (f_equal length) in E. vm_compute in E. discriminate. Qed.

Lemma snap_to_grid_center_form_nonempty : snap_to_grid_center_form ≠ [].
Proof. intros E. apply (f_equal length) in E. vm_compute in E. discriminate. Qed.

Lemma first_pass_replaced content :
  replaced snap_to_grid_form snap_to_grid_replacement content
    (sub_str (compile_literal snap_to_grid_pattern) snap_to_grid_replacement content).
Proof. apply sub_lit_replaced, snap_to_grid_form_nonempty. Qed.

Lemma second_pass_replaced content :
  replaced snap_to_grid_center_form snap_to_grid_center_replacement content
    (sub_str (compile_literal snap_to_grid_center_pattern)
       snap_to_grid_center_replacement content).
Proof. apply sub_lit_replaced, snap_to_grid_center_form_nonempty. Qed.

(** After the two passes neither pre-patch form is left. *)
Lemma patched_has_no_form content :
  ¬ occurs snap_to_grid_form (apply_replacements content)
  ∧ ¬ occurs snap_to_grid_center_form (apply_replacements content).
Proof.
  unfold apply_replacements.
  pose proof (first_pass_replaced content) as H1.
  set (c1 := sub_str (compile_literal snap_to_grid_pattern) _ content) in *.
  pose proof (second_pass_replaced c1) as H2.
  assert (Hc1 : ¬ occurs snap_to_grid_form c1).
  { revert H1. apply replaced_free; [apply snap_to_grid_form_nonempty| | | | |by left].
    all: vm_compute; first [reflexivity | lia]. }
  split.
  - revert H2. apply replaced_free; [apply snap_to_grid_center_form_nonempty| | | | |by right].
    all: vm_compute; first [reflexivity | lia].
  - revert H2. apply replaced_free; [apply snap_to_grid_center_form_nonempty| | | | |by left].
    all: vm_compute; first [reflexivity | lia].
Qed.

Lemma apply_replacements_fixed content :
  ¬ occurs snap_to_grid_form content → ¬ occurs snap_to_grid_center_form content →
  apply_replacements content = content.
Proof.
  intros H1 H2. unfold apply_replacements.
  rewrite (replaced_absent _ _ _ _ H1 (first_pass_replaced content)).
  apply (replaced_absent _ _ _ _ H2 (second_pass_replaced content)).
Qed.

(** The two passes, applied to their own result, change nothing. *)
Lemma apply_replacements_idempotent content :
  apply_replacements (apply_replacements content) = apply_replacements content.
Proof.
  destruct (patched_has_no_form content). by apply apply_replacements_fixed.
Qed.

(** Each pre-patch form present in the input shows up patched in the
    output. *)
Lemma patched_has_replacements content :
  (occurs snap_to_grid_form content →
   occurs snap_to_grid_replacement (apply_replacements content))
  ∧ (occurs snap_to_grid_center_form content →
     occurs snap_to_grid_center_replacement (apply_replacements content)).
Proof.
  unfold apply_replacements.
  pose proof (first_pass_replaced content) as H1.
  set (c1 := sub_str (compile_literal snap_to_grid_pattern) _ content) in *.
  pose proof (second_pass_replaced c1) as H2.
  assert (Ha1 : apart snap_to_grid_replacement snap_to_grid_center_form = true)
    by (vm_compute; reflexivity).
  assert (Ha2 : apart snap_to_grid_center_form snap_to_grid_form = true)
    by (vm_compute; reflexivity).
  split; intros Ho.
  - eapply (replaced_keeps _ _ snap_to_grid_center_form_nonempty _ c1 _ Ha1); [|exact H2].
    by eapply (replaced_present _ _ content _ Ho).
  - eapply (replaced_present _ _ c1); [|exact H2].
    by eapply (replaced_keeps _ _ snap_to_grid_form_nonempty _ content _ Ha2).
Qed.

End GridSnapFacts.

(** ** Running the grid-snap patcher *)

Section GridSnapRun.
Import Re GridSnapText GridSnap.

Lemma node_at_target t : node_at t target = t !! target.
Proof. reflexivity. Qed.

Lemma script_read_error w e : read_file target w = (Raise e, w) → script w = (Raise e, w).
Proof. intros Hr. unfold script, mbind, M_bind, bind. by rewrite Hr. Qed.

Lemma script_no_change w content :
  read_file target w = (Ok content, w) → apply_replacements content = content →
  script w =
    (Ok tt,
     printed w
       (txt "ERROR: No changes were made. Patterns may not match."
        :: if contains (txt "function snapToGrid") content
           then [txt "Found snapToGrid function";
                 let idx := default 0 (find (txt "function snapToGrid") content) in
                 slice idx (idx + 500) content]
           else [txt "Could not find snapToGrid function"])).
Proof.
  intros Hr Heq. unfold script, mbind, M_bind, bind. rewrite Hr.
  rewrite decide_True by done.
  destruct (contains _ content); unfold print, printed; simpl.
  - by rewrite <- !app_assoc.
  - by rewrite <- !app_assoc.
Qed.

Lemma script_change w content :
  read_file target w = (Ok content, w) → apply_replacements content ≠ content →
  script w =
    match write_file target (apply_replacements content)
            (printed w [txt "Changes applied successfully"]) with
    | (Ok _, w1) => (Ok tt, printed w1 [txt "Updated " ++ file_path])
    | (Raise e, w1) => (Raise e, w1)
    end.
Proof.
  intros Hr Hne. unfold script, mbind, M_bind, bind. rewrite Hr.
  rewrite decide_False by done. unfold print at 1. unfold printed at 1. simpl.
  destruct (write_file _ _ _) as [[[]|e] w1]; done.
Qed.

Lemma read_file_readable p w wr content :
  node_at (tree w) p = Some (File true wr content) → read_file p w = (Ok content, w).
Proof. intros Hn. unfold read_file. by rewrite Hn. Qed.

Lemma read_file_inv p w r w1 :
  read_file p w = (r, w1) →
  w1 = w ∧ match r with
           | Ok content => ∃ wr, node_at (tree w) p = Some (File true wr content)
           | Raise _ => ∀ wr content, node_at (tree w) p ≠ Some (File true wr content)
           end.
Proof.
  unfold read_file. destruct (node_at (tree w) p) as [[|[] wr d]|]; intros [= <- <-];
    split; try done. by exists wr.
Qed.

Lemma occurs_trans a b c : occurs a b → occurs b c → occurs a c.
Proof.
  intros (x & y & ->) (u & v & ->). exists (u ++ x), (y ++ v).
  by rewrite <- !app_assoc.
Qed.

(** A text the passes change held one of the two pre-patch forms. *)
Lemma changed_had_form content :
  apply_replacements content ≠ content →
  occurs snap_to_grid_form content ∨ occurs snap_to_grid_center_form content.
Proof.
  intros Hne.
  destruct (contains snap_to_grid_form content) eqn:E1;
    [left; by apply contains_true|].
  destruct (contains snap_to_grid_center_form content) eqn:E2;
    [right; by apply contains_true|].
  destruct Hne. apply apply_replacements_fixed; by apply contains_false.
Qed.

Lemma changed_mentions_function content :
  apply_replacements content ≠ content →
  contains (txt "function snapToGrid") (apply_replacements content) = true.
Proof.
  intros Hne. apply contains_true.
  destruct (patched_has_replacements content) as [H1 H2].
  destruct (changed_had_form content Hne) as [Ho|Ho].
  - eapply occurs_trans; [|exact (H1 Ho)]. apply contains_true. by vm_compute.
  - eapply occurs_trans; [|exact (H2 Ho)]. apply contains_true. by vm_compute.
Qed.

Lemma run_first_application w content :
  node_at (tree w) target = Some (File true true content) →
  apply_replacements content ≠ content →
  run w = (0, World (<[target := File true true (apply_replacements content)]> (tree w))
                (console w ++ [txt "Changes applied successfully";
                               txt "Updated " ++ file_path])
                (opened_for_writing w ++ [target])).
Proof.
  intros Hn Hne. unfold run.
  rewrite (script_change w content) by eauto using read_file_readable.
  unfold write_file. cbn [tree printed]. rewrite Hn. unfold printed; simpl.
  by rewrite <- app_assoc.
Qed.

End GridSnapRun.

(** ** Claims about the grid-snap patcher *)

Section GridSnapClaims.
Import Re GridSnapText GridSnap Samples.

(** C4: when the component file holds the two functions in their exact
    pre-offset form, the file the patcher writes holds both
    replacement bodies: each coordinate subtracts its axis offset
    inside [Math.round] / [Math.floor] and adds it back after the
    multiplication, the cell width and height default to [gridSize]
    and the offsets default to 0. *)
Theorem patch_applies_grid_offsets (w : world) (content : text) :
  node_at (tree w) target = Some (File true true content) →
  occurs snap_to_grid_form content →
  occurs snap_to_grid_center_form content →
  ∃ out,
    out = apply_replacements content
    ∧ tree (run w).2 !! target = Some (File true true out)
    ∧ occurs snap_to_grid_replacement out
    ∧ occurs snap_to_grid_center_replacement out
    ∧ Forall (λ line, occurs (txt line) snap_to_grid_replacement)
        [ "const cellWidth = scene.gridWidth ?? gridSize;";
          "const cellHeight = scene.gridHeight ?? gridSize;";
          "const offsetX = scene.gridOffsetX ?? 0;";
          "const offsetY = scene.gridOffsetY ?? 0;";
          "x: Math.round((x - offsetX) / cellWidth) * cellWidth + offsetX,";
          "y: Math.round((y - offsetY) / cellHeight) * cellHeight + offsetY," ]%string
    ∧ Forall (λ line, occurs (txt line) snap_to_grid_center_replacement)
        [ "const cellWidth = scene.gridWidth ?? gridSize;";
          "const cellHeight = scene.gridHeight ?? gridSize;";
          "const offsetX = scene.gridOffsetX ?? 0;";
          "const offsetY = scene.gridOffsetY ?? 0;";
          "x: Math.floor((x - offsetX) / cellWidth) * cellWidth + cellWidth / 2 + offsetX,";
          "y: Math.floor((y - offsetY) / cellHeight) * cellHeight + cellHeight / 2 + offsetY," ]%string.
Proof.
  intros Hn Ho1 Ho2. exists (apply_replacements content).
  destruct (patched_has_replacements content) as [H1 H2].
  destruct (patched_has_no_form content) as [Hno _].
  assert (Hne : apply_replacements content ≠ content).
  { intros E. rewrite E in Hno. exact (Hno Ho1). }
  rewrite (run_first_application w content Hn Hne). cbn [snd tree].
  split_and!; [reflexivity|apply lookup_insert_eq|exact (H1 Ho1)|exact (H2 Ho2)| |].
  all: repeat (apply Forall_cons_2; [apply contains_true; vm_compute; reflexivity|]).
  all: apply Forall_nil_2.
Qed.

Lemma patch_applies_grid_offsets_witness :
  ∃ out, out = apply_replacements unpatched_component
         ∧ tree (run unpatched_world).2 !! target = Some (File true true out)
         ∧ occurs snap_to_grid_replacement out
         ∧ occurs snap_to_grid_center_replacement out.
Proof.
  destruct (patch_applies_grid_offsets unpatched_world unpatched_component)
    as (out & H1 & H2 & H3 & H4 & _).
  - vm_compute; reflexivity.
  - apply contains_true. vm_compute; reflexivity.
  - apply contains_true. vm_compute; reflexivity.
  - exists out. split_and!; assumption.
Defined.

(** C6: after a first application that changed the file, the patched
    text holds neither pre-offset form, the two substitutions leave
    it as it is, and a second run prints the non-match diagnostic
    and opens nothing for writing. *)
Theorem second_application_changes_nothing (w : world) (content : text) :
  node_at (tree w) target = Some (File true true content) →
  apply_replacements content ≠ content →
  let patched := apply_replacements content in
  let w1 := (run w).2 in
  tree w1 !! target = Some (File true true patched)
  ∧ ¬ occurs snap_to_grid_form patched
  ∧ ¬ occurs snap_to_grid_center_form patched
  ∧ apply_replacements patched = patched
  ∧ run w1 =
      (0, printed w1
            [ txt "ERROR: No changes were made. Patterns may not match.";
              txt "Found snapToGrid function";
              let idx := default 0 (find (txt "function snapToGrid") patched) in
              slice idx (idx + 500) patched ])
  ∧ tree (run w1).2 = tree w1
  ∧ opened_for_writing (run w1).2 = opened_for_writing w1.
Proof.
  intros Hn Hne patched w1.
  destruct (patched_has_no_form content) as [Hno1 Hno2].
  pose proof (apply_replacements_idempotent content) as Hid.
  assert (Hw1 : tree w1 !! target = Some (File true true patched)).
  { subst w1. rewrite (run_first_application w content Hn Hne). cbn [snd tree].
    by rewrite lookup_insert_eq. }
  assert (Hrun : run w1 =
      (0, printed w1
            [ txt "ERROR: No changes were made. Patterns may not match.";
              txt "Found snapToGrid function";
              let idx := default 0 (find (txt "function snapToGrid") patched) in
              slice idx (idx + 500) patched ])).
  { unfold run. rewrite (script_no_change w1 patched).
    - unfold patched. by rewrite (changed_mentions_function content Hne).
    - apply (read_file_readable _ _ true). by rewrite node_at_target.
    - exact Hid. }
  split_and!; try done. all: by rewrite Hrun.
Qed.

Lemma second_application_changes_nothing_witness :
  let patched := apply_replacements unpatched_component in
  let w1 := (run unpatched_world).2 in
  apply_replacements patched = patched
  ∧ tree (run w1).2 = tree w1
  ∧ opened_for_writing (run w1).2 = opened_for_writing w1.
Proof.
  destruct (second_application_changes_nothing unpatched_world unpatched_component)
    as (_ & _ & _ & H1 & _ & H2 & H3).
  - vm_compute; reflexivity.
  - intros E. apply (f_equal length) in E. vm_compute in E. discriminate.
  - split_and!; assumption.
Defined.

(** C8, amended: the patcher exits with status 0 exactly when the
    component file can be read and, should the substitutions change
    its text, written; in every other state the exception raised by
    [open] is not caught and the status is 1. *)
Theorem patcher_exit_status (w : world) :
  ((run w).1 = 0 ↔
     ∃ wr content, node_at (tree w) target = Some (File true wr content)
                   ∧ (apply_replacements content = content ∨ wr = true))
  ∧ ((run w).1 = 0 ∨ (run w).1 = 1).
Proof.
  unfold run. destruct (read_file target w) as [[content|e] w0] eqn:Hr.
  - apply read_file_inv in Hr as [-> [wr Hn]].
    pose proof (read_file_readable _ _ _ _ Hn) as Hr.
    destruct (decide (apply_replacements content = content)) as [Heq|Hne].
    + rewrite (script_no_change w content Hr Heq). split; [|by left].
      split; [|done]. intros _. exists wr, content. auto.
    + rewrite (script_change w content Hr Hne). unfold write_file.
      cbn [tree printed]. rewrite Hn. destruct wr; cbn [fst].
      * split; [|by left]. split; [|done]. intros _. exists true, content. auto.
      * split; [|by right]. split; [done|].
        intros (wr & c & [= <- <-] & [?|?]); done.
  - pose proof Hr as Hr'. apply read_file_inv in Hr' as [-> Hn].
    rewrite (script_read_error w e Hr).
    split; [|by right]. split; [done|]. intros (wr & c & Hc & _). by destruct (Hn wr c).
Qed.

Lemma patcher_exit_status_witness : (run unrelated_world).1 = 0.
Proof.
  apply (proj1 (patcher_exit_status unrelated_world)).
  exists true, (txt "<script></script>"). split; [|left]; vm_compute; reflexivity.
Defined.

(** C8 as stated fails: with the component file absent, present but
    unreadable, or in need of the patch but read-only, the patcher ends
    with status 1. *)
Lemma patcher_exits_1_without_target :
  (run empty_world).1 = 1
  ∧ (run (World {[ target := File false true unpatched_component ]} [] [])).1 = 1
  ∧ (run read_only_world).1 = 1.
Proof. repeat split; vm_compute; reflexivity. Qed.

End GridSnapClaims.

(** ** [re.sub] with a callback that may raise *)

Section ReSubFacts.
Import Re ReSub.

Context {A : Type}.
Variable r : regex.

Lemma prepend_Ok (a : text) (res : result (text * A)) out st :
  prepend a res = Ok (out, st) ↔ ∃ o, res = Ok (o, st) ∧ out = a ++ o.
Proof.
  unfold prepend. destruct res as [[o st']|e]; simpl; split.
  - intros [= <- <-]. by exists o.
  - by intros (o' & [= <- <-] & ->).
  - done.
  - by intros (o' & [=] & _).
Qed.

Lemma prepend_Raise (a : text) (res : result (text * A)) e :
  prepend a res = Raise e ↔ res = Raise e.
Proof. unfold prepend. destruct res as [[o st']|e']; simpl; split; congruence. Qed.

Lemma prepend_app (a b : text) (res : result (text * A)) :
  prepend a (prepend b res) = prepend (a ++ b) res.
Proof. unfold prepend. destruct res as [[o st]|e]; simpl; [|done]. by rewrite app_assoc. Qed.

Lemma prepend_nil (res : result (text * A)) : prepend [] res = res.
Proof. unfold prepend. by destruct res as [[o st]|e]. Qed.

(** Characters that belong to the previous match are passed over. *)
Lemma sub_from_passes_over (repl : rmatch → A → result (text * A)) s k st :
  k ≤ length s → sub_from r repl k s st = sub_from r repl 0 (drop k s) st.
Proof.
  revert k; induction s as [|c s IH]; intros k Hk.
  - simpl in Hk. by replace k with 0 by lia.
  - destruct k as [|k]; [done|]. simpl in *. apply IH. lia.
Qed.

(** Callbacks that agree give the same result. *)
Lemma sub_from_agree (f g : rmatch → A → result (text * A)) :
  (∀ m st, f m st = g m st) → ∀ s k st, sub_from r f k s st = sub_from r g k s st.
Proof.
  intros Hfg. induction s as [|c s IH]; intros k st; simpl.
  - destruct k; [|done]. destruct (match_here r []); [apply Hfg|done].
  - destruct k as [|k]; [|apply IH].
    destruct (match_here r (c :: s)) as [m|]; [|by rewrite IH].
    rewrite Hfg. destruct (g m st) as [[o1 st1]|e]; simpl; [|done].
    destruct (length (m_text m)); [|by rewrite IH].
    destruct (match_here_advancing r (c :: s)) as [m2|]; [|by rewrite IH].
    rewrite Hfg. destruct (g m2 st1) as [[o2 st2]|e]; simpl; [|done]. by rewrite IH.
Qed.

(** A callback that never raises gives what [Re.sub] gives. *)
Lemma sub_from_total (f : rmatch → A → text * A) s :
  ∀ k st, sub_from r (λ m a, Ok (f m a)) k s st = Ok (Re.sub_from r f k s st).
Proof.
  induction s as [|c s IH]; intros k st; simpl.
  - destruct k; [|done]. destruct (match_here r []) as [m|]; [|done]. by destruct (f m st).
  - destruct k as [|k]; [|apply IH].
    destruct (match_here r (c :: s)) as [m|].
    + simpl. destruct (f m st) as [o1 st1].
      destruct (length (m_text m)).
      * destruct (match_here_advancing r (c :: s)) as [m2|].
        -- simpl. destruct (f m2 st1) as [o2 st2]. rewrite IH. simpl.
           by destruct (Re.sub_from r f _ s st2).
        -- rewrite IH. simpl. by destruct (Re.sub_from r f 0 s st1).
      * rewrite IH. simpl. by destruct (Re.sub_from r f _ s st1).
    + rewrite IH. simpl. by destruct (Re.sub_from r f 0 s st).
Qed.

Lemma matches_nowhere_cons c s :
  match_here r (c :: s) = None → matches_nowhere r s → matches_nowhere r (c :: s).
Proof.
  intros Hc Hs a b Hab. destruct a as [|c' a]; simpl in Hab.
  - by subst.
  - injection Hab as -> ->. by apply (Hs a b).
Qed.

(** Where the pattern matches nowhere, the text and the state come
    back as they were, and the callback is not called. *)
Lemma sub_no_match (repl : rmatch → A → result (text * A)) s st :
  matches_nowhere r s → sub r repl s st = Ok (s, st).
Proof.
  unfold sub. revert st. induction s as [|c s IH]; intros st Hno.
  - simpl. by rewrite (Hno [] []).
  - cbn [sub_from]. rewrite (Hno [] (c :: s)) by done.
    rewrite IH; [done|]. intros a b ->. by apply (Hno (c :: a) b).
Qed.

(** At the first match the callback is called once, and the scan goes
    on behind the matched text. *)
Lemma sub_first_match (repl : rmatch → A → result (text * A)) u m rest st :
  first_match r u m rest → m_text m ≠ [] →
  sub r repl (u ++ m_text m ++ rest) st
  = '(o, st1) ← repl m st; prepend (u ++ o) (sub r repl rest st1).
Proof.
  unfold sub. intros [Hbefore Hm] Hne. induction u as [|c u IH].
  - simpl. destruct (m_text m) as [|c mt] eqn:Emt; [done|]. simpl in *.
    rewrite Hm. destruct (repl m st) as [[o1 st1]|e]; simpl; [|done].
    rewrite Emt. simpl. rewrite sub_from_passes_over by (rewrite length_app; lia).
    by rewrite drop_app_length.
  - pose proof (Hbefore [] (c :: u) eq_refl ltac:(done)) as Hc.
    simpl in *. rewrite Hc. rewrite IH.
    + destruct (repl m st) as [[o1 st1]|e]; simpl; [|done].
      unfold prepend. by destruct (sub_from r repl 0 rest st1) as [[o st2]|e].
    + intros a b -> Hb. by apply (Hbefore (c :: a) b).
Qed.

(** A pattern that has no empty match either matches nowhere in a text
    or has a first match in it. *)
Lemma first_match_or_none s :
  (∀ s' m, match_here r s' = Some m → m_text m ≠ []) →
  matches_nowhere r s ∨ ∃ u m rest, s = u ++ m_text m ++ rest ∧ first_match r u m rest.
Proof.
  intros Hne. induction s as [|c s IH].
  - left. intros a b Hab. symmetry in Hab. apply app_eq_nil in Hab as [_ ->].
    destruct (match_here r []) as [m|] eqn:Em; [|done].
    pose proof (Hne _ _ Em) as Hm.
    apply match_here_Some in Em as [rest Hin]. apply exec_sound in Hin.
    symmetry in Hin. by apply app_eq_nil in Hin as [? _].
  - destruct (match_here r (c :: s)) as [m|] eqn:Em.
    + right. pose proof Em as Em'.
      apply match_here_Some in Em' as [rest Hin]. apply exec_sound in Hin.
      exists [], m, rest. split; [done|]. split.
      * intros a b Hab Hb. symmetry in Hab. by apply app_eq_nil in Hab as [_ ->].
      * by rewrite <- Hin.
    + destruct IH as [Hno|(u & m & rest & -> & Hbefore & Hm)].
      * left. exact (matches_nowhere_cons c s Em Hno).
      * right. exists (c :: u), m, rest. split; [done|]. split; [|done].
        intros a b Hab Hb. destruct a as [|c' a]; simpl in Hab.
        -- by subst.
        -- injection Hab as -> ->. by apply (Hbefore a b).
Qed.

End ReSubFacts.

(** ** The import fixer: classifying and extending a specifier *)

Section SpecifierFacts.
Import Re EsmImports.
Context `{Platform}.

Lemma needs_js_extension_true p :
  needs_js_extension p = true ↔
  (startswith (txt "./") p = true ∨ startswith (txt "../") p = true)
  ∧ endswith (txt ".js") p = false.
Proof.
  unfold needs_js_extension.
  destruct (endswith (txt ".js") p), (startswith (txt "./") p),
    (startswith (txt "../") p); simpl; intuition congruence.
Qed.

(** With the three lookups spelled out. *)
Lemma add_js_extension_unfold t p file_dir source_root :
  needs_js_extension p = true →
  add_js_extension t p file_dir source_root
  = (resolved_path ← Path_resolve (joinpath file_dir p);
     is_directory ← Path_is_dir t resolved_path;
     index_exists ← (if is_directory : bool
                     then Path_exists t (resolved_path ++ [txt "index.ts"])
                     else Ok false);
     Ok (if index_exists : bool
         then (if endswith (txt "/index") p then p ++ txt ".js" else p ++ txt "/index.js")
         else p ++ txt ".js")).
Proof.
  intros Hn. unfold add_js_extension. rewrite Hn. cbn [negb].
  destruct (Path_resolve _) as [resolved_path|e]; [|done]. simpl.
  destruct (Path_is_dir t resolved_path) as [[]|e]; [|done..]. simpl.
  change (joinpath resolved_path (txt "index.ts")) with (resolved_path ++ [txt "index.ts"]).
  destruct (Path_exists t _) as [[]|e]; [|done..]. simpl.
  by destruct (endswith _ p).
Qed.

Lemma add_js_extension_cases t p file_dir source_root out :
  needs_js_extension p = true →
  add_js_extension t p file_dir source_root = Ok out →
  out = p ++ txt ".js" ∨ out = p ++ txt "/index.js".
Proof.
  intros Hn. rewrite add_js_extension_unfold by done.
  destruct (Path_resolve _) as [resolved_path|e]; [|done]. simpl.
  destruct (Path_is_dir t resolved_path) as [d|e]; [|done]. simpl.
  destruct (if d then _ else _) as [[]|e]; [|by intros [= <-]; left|done]. simpl.
  destruct (endswith _ p); intros [= <-]; auto.
Qed.

Lemma add_js_extension_skip t p file_dir source_root :
  needs_js_extension p = false → add_js_extension t p file_dir source_root = Ok p.
Proof. intros Hn. unfold add_js_extension. by rewrite Hn. Qed.

Lemma add_js_extension_ends_js t p file_dir source_root out :
  needs_js_extension p = true →
  add_js_extension t p file_dir source_root = Ok out →
  endswith (txt ".js") out = true.
Proof.
  intros Hn Ho. destruct (add_js_extension_cases _ _ _ _ _ Hn Ho) as [->| ->].
  - apply endswith_app.
  - apply endswith_true. exists (p ++ txt "/index"). by rewrite <- app_assoc.
Qed.

Lemma add_js_extension_longer t p file_dir source_root out :
  needs_js_extension p = true →
  add_js_extension t p file_dir source_root = Ok out →
  length p + 3 ≤ length out.
Proof.
  intros Hn Ho. destruct (add_js_extension_cases _ _ _ _ _ Hn Ho) as [->| ->];
    rewrite length_app; [change (length (txt ".js")) with 3
                        |change (length (txt "/index.js")) with 9]; lia.
Qed.

Lemma ends_js_not_needed p : endswith (txt ".js") p = true → needs_js_extension p = false.
Proof. intros E. unfold needs_js_extension. by rewrite E. Qed.

(** The tree matters to [add_js_extension] through [is_dir] and
    [exists] only, and the source root does not matter. *)
Lemma add_js_extension_same_shape t t' p file_dir source_root source_root' :
  (∀ q, is_dir t q = is_dir t' q) → (∀ q, path_exists t q = path_exists t' q) →
  add_js_extension t p file_dir source_root = add_js_extension t' p file_dir source_root'.
Proof.
  intros Hd He. unfold add_js_extension, Path_is_dir, Path_exists.
  destruct (negb _); [done|]. destruct (Path_resolve _) as [q|e]; [|done]. simpl.
  rewrite Hd. destruct (stat_error q) as [e|]; simpl.
  - destruct (ignore_error e); [done|done].
  - destruct (is_dir t' q); [|done]. by rewrite He.
Qed.

End SpecifierFacts.

(** ** Joining and resolving paths *)

Section PathFacts.
Import EsmReport.

Lemma eqb_text_true a b : eqb_text a b = true ↔ a = b.
Proof.
  unfold eqb_text. rewrite andb_true_iff, Nat.eqb_eq, startswith_true. split.
  - intros [Hl [r ->]]. rewrite length_app in Hl.
    assert (r = []) as -> by (apply length_zero_iff_nil; lia). by rewrite app_nil_r.
  - intros ->. split; [done|]. exists []. by rewrite app_nil_r.
Qed.

Lemma eqb_text_false a b : eqb_text a b = false ↔ a ≠ b.
Proof. rewrite <- eqb_text_true. by destruct (eqb_text a b). Qed.

Lemma split_plain c name : c ∉ name → split c name = [name].
Proof.
  induction name as [|a name IH]; [done|]. intros Hc.
  apply not_elem_of_cons in Hc as [Hac Hc]. simpl.
  rewrite (proj2 (N.eqb_neq a c)) by done. by rewrite IH.
Qed.

Lemma split_app c name s : c ∉ name → split c (name ++ c :: s) = name :: split c s.
Proof.
  induction name as [|a name IH]; intros Hc; simpl.
  - by rewrite N.eqb_refl.
  - apply not_elem_of_cons in Hc as [Hac Hc].
    rewrite (proj2 (N.eqb_neq a c)) by done. by rewrite IH.
Qed.

Lemma dot_no_slash : 47%N ∉ txt ".".
Proof. intros Hin%list_elem_of_In. vm_compute in Hin. intuition discriminate. Qed.

Lemma dotdot_no_slash : 47%N ∉ txt "..".
Proof. intros Hin%list_elem_of_In. vm_compute in Hin. intuition discriminate. Qed.

Lemma resolve_app d cs :
  resolve (d ++ cs)
  = fold_left (λ acc c, if eqb_text c (txt "..") then removelast acc else acc ++ [c])
      cs (resolve d).
Proof. unfold resolve. by rewrite fold_left_app. Qed.

Lemma plain_name_kept name :
  plain_name name →
  negb (eqb_text name []) && negb (eqb_text name (txt ".")) = true
  ∧ eqb_text name (txt "..") = false.
Proof.
  intros (Hne & Hdot & Hdd & _).
  by rewrite (proj2 (eqb_text_false _ _) Hne), (proj2 (eqb_text_false _ _) Hdot),
    (proj2 (eqb_text_false _ _) Hdd).
Qed.

Lemma no_slash_check name : existsb (N.eqb 47%N) name = false → 47%N ∉ name.
Proof.
  intros Hc Hin%list_elem_of_In. apply not_true_iff_false in Hc. apply Hc.
  apply existsb_exists. exists 47%N. by split.
Qed.

Lemma plain_name_no_slash name : plain_name name → 47%N ∉ name.
Proof. by intros (_ & _ & _ & ?). Qed.

(** The components [joinpath] keeps. *)
Lemma joinpath_dot d rel :
  joinpath d (txt "./" ++ rel)
  = d ++ List.filter (λ c, negb (eqb_text c []) && negb (eqb_text c (txt ".")))
           (split 47%N rel).
Proof.
  unfold joinpath. change (txt "./" ++ rel) with (txt "." ++ 47%N :: rel).
  rewrite split_app by apply dot_no_slash.
  replace (startswith (txt "/") (txt "." ++ 47%N :: rel)) with false by reflexivity.
  cbn [List.filter].
  by replace (negb (eqb_text (txt ".") []) && negb (eqb_text (txt ".") (txt ".")))
    with false by reflexivity.
Qed.

Lemma joinpath_dotdot d rel :
  joinpath d (txt "../" ++ rel)
  = d ++ txt ".." :: List.filter (λ c, negb (eqb_text c []) && negb (eqb_text c (txt ".")))
                       (split 47%N rel).
Proof.
  unfold joinpath. change (txt "../" ++ rel) with (txt ".." ++ 47%N :: rel).
  rewrite split_app by apply dotdot_no_slash.
  replace (startswith (txt "/") (txt ".." ++ 47%N :: rel)) with false by reflexivity.
  cbn [List.filter].
  by replace (negb (eqb_text (txt "..") []) && negb (eqb_text (txt "..") (txt ".")))
    with true by reflexivity.
Qed.

(** [./name] names the entry [name] of the directory. *)
Lemma resolve_dot d name :
  resolve d = d → plain_name name →
  resolve (joinpath d (txt "./" ++ name)) = d ++ [name].
Proof.
  intros Hd Hp. destruct (plain_name_kept name Hp) as [Hk Hdd].
  rewrite joinpath_dot, split_plain by by apply plain_name_no_slash.
  cbn [List.filter]. rewrite Hk, resolve_app, Hd. cbn [fold_left]. by rewrite Hdd.
Qed.

(** [../name] names the entry [name] of the parent directory. *)
Lemma resolve_dotdot d name :
  resolve d = d → plain_name name →
  resolve (joinpath d (txt "../" ++ name)) = parent d ++ [name].
Proof.
  intros Hd Hp. destruct (plain_name_kept name Hp) as [Hk Hdd].
  rewrite joinpath_dotdot, split_plain by by apply plain_name_no_slash.
  cbn [List.filter]. rewrite Hk, resolve_app, Hd. cbn [fold_left].
  replace (eqb_text (txt "..") (txt "..")) with true by reflexivity. by rewrite Hdd.
Qed.

(** [./name/entry] names the entry [entry] of [name]. *)
Lemma resolve_dot_entry d name entry :
  resolve d = d → plain_name name → plain_name entry →
  resolve (joinpath d (txt "./" ++ name ++ txt "/" ++ entry)) = d ++ [name; entry].
Proof.
  intros Hd Hp He. destruct (plain_name_kept name Hp) as [Hk Hdd].
  destruct (plain_name_kept entry He) as [Hk' Hdd'].
  rewrite joinpath_dot. change (name ++ txt "/" ++ entry) with (name ++ 47%N :: entry).
  rewrite split_app by by apply plain_name_no_slash.
  rewrite split_plain by by apply plain_name_no_slash.
  cbn [List.filter]. rewrite Hk, Hk', resolve_app, Hd. cbn [fold_left].
  by rewrite Hdd, Hdd', <- app_assoc.
Qed.

(** Behind [./] or [../], a name other than [index] does not make
    the specifier end with [/index]. *)
Lemma plain_name_not_index prefix name :
  prefix = txt "./" ∨ prefix = txt "../" → plain_name name → name ≠ txt "index" →
  endswith (txt "/index") (prefix ++ name) = false.
Proof.
  intros Hpre (_ & _ & _ & Hslash) Hni.
  apply not_true_iff_false. intros [a Ha]%endswith_true.
  assert (Hin : ∀ a', name = a' ++ txt "/index" → False).
  { intros a' ->. apply Hslash, elem_of_app. right. by left. }
  let x := eval vm_compute in (txt "/index") in change (txt "/index") with x in *.
  destruct Hpre as [-> | ->].
  - let x := eval vm_compute in (txt "./") in change (txt "./") with x in *.
    destruct a as [|x [|y a]]; simpl in Ha.
    + discriminate.
    + injection Ha; intros; subst. by apply Hni.
    + injection Ha; intros; subst. by apply (Hin a).
  - let x := eval vm_compute in (txt "../") in change (txt "../") with x in *.
    destruct a as [|x [|y [|z a]]]; simpl in Ha.
    + discriminate.
    + discriminate.
    + injection Ha; intros; subst. by apply Hni.
    + injection Ha; intros; subst. by apply (Hin a).
Qed.

End PathFacts.

(** ** The import fixer: what the two patterns match *)

Section PatternFacts.
Import Re EsmImports.
Context `{UnicodeDB}.

Lemma exec_Cat_inv r1 r2 s m g rest :
  In (m, g, rest) (exec (Cat r1 r2) s) →
  ∃ m1 g1 s1 m2 g2,
    In (m1, g1, s1) (exec r1 s) ∧ In (m2, g2, rest) (exec r2 s1)
    ∧ m = m1 ++ m2 ∧ g = g2 ++ g1.
Proof.
  simpl. rewrite in_flat_map. intros ([[m1 g1] s1] & Hin1 & Hin2).
  apply in_map_iff in Hin2 as ([[m2 g2] s2] & [= <- <- <-] & Hin2).
  by exists m1, g1, s1, m2, g2.
Qed.

Lemma exec_Grp_inv n r s m g rest :
  In (m, g, rest) (exec (Grp n r) s) → ∃ g0, In (m, g0, rest) (exec r s) ∧ g = (n, m) :: g0.
Proof.
  simpl. rewrite in_map_iff. intros ([[m1 g1] s1] & [= <- <- <-] & Hin). by exists g1.
Qed.

Lemma exec_Cls_inv p s m g rest :
  In (m, g, rest) (exec (Cls p) s) → ∃ c, m = [c] ∧ g = [] ∧ p c = true.
Proof.
  simpl. destruct s as [|c s]; [done|]. destruct (p c) eqn:E; [|done].
  intros [[= <- <- <-]|[]]. by exists c.
Qed.

Lemma exec_Lit_inv l s m g rest :
  In (m, g, rest) (exec (Lit l) s) → m = l ∧ g = [].
Proof.
  simpl. destruct (startswith l s); [|done]. by intros [[= <- <- <-]|[]].
Qed.

Lemma exec_Alt_inv r1 r2 s x :
  In x (exec (Alt r1 r2) s) → In x (exec r1 s) ∨ In x (exec r2 s).
Proof. simpl. by rewrite in_app_iff. Qed.

Lemma exec_relative_specifier s m g rest :
  In (m, g, rest) (exec relative_specifier s) →
  g = [] ∧ (startswith (txt "./") m = true ∨ startswith (txt "../") m = true).
Proof.
  intros Hin. split; [by apply (exec_group_free relative_specifier s m g rest)|].
  unfold relative_specifier in Hin. apply exec_Alt_inv in Hin as [Hin|Hin].
  - apply (exec_Cat_inv (Lit _)) in Hin as (m1 & g1 & s1 & m2 & g2 & H1 & _ & -> & _).
    apply exec_Lit_inv in H1 as [-> _]. right. apply startswith_app.
  - apply (exec_Cat_inv (Lit _)) in Hin as (m1 & g1 & s1 & m2 & g2 & H1 & _ & -> & _).
    apply exec_Lit_inv in H1 as [-> _]. left. apply startswith_app.
Qed.

(** A match of the first pattern is a statement prefix, a quote, a
    relative specifier and a quote, captured as groups 1 to 4. *)
Lemma pattern1_match_shape s m g rest :
  In (m, g, rest) (exec pattern1 s) →
  ∃ pre q spec q',
    m = pre ++ [q] ++ spec ++ [q']
    ∧ g = [(4, [q']); (3, spec); (2, [q]); (1, pre)]
    ∧ is_quote q = true ∧ is_quote q' = true
    ∧ (startswith (txt "./") spec = true ∨ startswith (txt "../") spec = true).
Proof.
  intros Hin. unfold pattern1 in Hin.
  apply exec_Cat_inv in Hin as (m1 & g1 & s1 & ma & ga & H1 & Hin & -> & ->).
  apply exec_Cat_inv in Hin as (m2 & g2 & s2 & mb & gb & H2 & Hin & -> & ->).
  apply exec_Cat_inv in Hin as (m3 & g3 & s3 & m4 & g4 & H3 & H4 & -> & ->).
  apply exec_Grp_inv in H1 as (g1' & H1 & ->).
  apply exec_Grp_inv in H2 as (g2' & H2 & ->).
  apply exec_Grp_inv in H3 as (g3' & H3 & ->).
  apply exec_Grp_inv in H4 as (g4' & H4 & ->).
  apply exec_group_free in H1 as ->; [|done].
  apply exec_Cls_inv in H2 as (q & -> & -> & Hq).
  apply exec_relative_specifier in H3 as [-> Hspec].
  apply exec_Cls_inv in H4 as (q' & -> & -> & Hq').
  by exists m1, q, m3, q'.
Qed.

(** A match of the second pattern is [import(], a quote, a relative
    specifier, a quote and [)], with groups 1 to 3. *)
Lemma pattern2_match_shape s m g rest :
  In (m, g, rest) (exec pattern2 s) →
  ∃ q spec q',
    m = txt "import(" ++ [q] ++ spec ++ [q'] ++ txt ")"
    ∧ g = [(3, [q']); (2, spec); (1, [q])]
    ∧ is_quote q = true ∧ is_quote q' = true
    ∧ (startswith (txt "./") spec = true ∨ startswith (txt "../") spec = true).
Proof.
  intros Hin. unfold pattern2 in Hin.
  apply exec_Cat_inv in Hin as (m0 & g0 & s0 & ma & ga & H0 & Hin & -> & ->).
  apply exec_Cat_inv in Hin as (m1 & g1 & s1 & mb & gb & H1 & Hin & -> & ->).
  apply exec_Cat_inv in Hin as (m2 & g2 & s2 & mc & gc & H2 & Hin & -> & ->).
  apply exec_Cat_inv in Hin as (m3 & g3 & s3 & m4 & g4 & H3 & H4 & -> & ->).
  apply exec_Lit_inv in H0 as [-> ->].
  apply exec_Grp_inv in H1 as (g1' & H1 & ->).
  apply exec_Grp_inv in H2 as (g2' & H2 & ->).
  apply exec_Grp_inv in H3 as (g3' & H3 & ->).
  apply exec_Lit_inv in H4 as [-> ->].
  apply exec_Cls_inv in H1 as (q & -> & -> & Hq).
  apply exec_relative_specifier in H2 as [-> Hspec].
  apply exec_Cls_inv in H3 as (q' & -> & -> & Hq').
  by exists q, m2, q'.
Qed.

(** The first callback on a match of that shape. *)
Lemma replace_import_export_shape `{Platform} t file_dir source_root pre q spec q' n :
  replace_import_export t file_dir source_root
    (MkMatch (pre ++ [q] ++ spec ++ [q']) [(4, [q']); (3, spec); (2, [q]); (1, pre)]) n
  = if needs_js_extension spec
    then new_path ← add_js_extension t spec file_dir source_root;
         Ok (pre ++ [q] ++ new_path ++ [q], n + 1)
    else Ok (pre ++ [q] ++ spec ++ [q'], n).
Proof. reflexivity. Qed.

(** The second callback on a match of that shape. *)
Lemma replace_dynamic_import_shape `{Platform} t file_dir source_root q spec q' n :
  replace_dynamic_import t file_dir source_root
    (MkMatch (txt "import(" ++ [q] ++ spec ++ [q'] ++ txt ")")
       [(3, [q']); (2, spec); (1, [q])]) n
  = if needs_js_extension spec
    then new_path ← add_js_extension t spec file_dir source_root;
         Ok (txt "import(" ++ [q] ++ new_path ++ [q] ++ txt ")", n + 1)
    else Ok (txt "import(" ++ [q] ++ spec ++ [q'] ++ txt ")", n).
Proof. reflexivity. Qed.

Lemma is_quote_true q : is_quote q = true → q = squote ∨ q = dquote.
Proof. unfold is_quote. by rewrite orb_true_iff, !N.eqb_eq. Qed.

End PatternFacts.

(** ** The import fixer: the two passes *)

Section PassFacts.
Import Re ReSub EsmImports EsmReport.
Context `{UnicodeDB} `{Platform}.

(** What either pattern reports is a statement, and the callback of
    its pass treats it by the one rule. *)
Lemma match_here_statement k s m :
  match_here (pattern_of k) s = Some m →
  statement k m
  ∧ ∀ t file_dir source_root n,
      match k with
      | Static => replace_import_export t file_dir source_root m n
      | Dynamic => replace_dynamic_import t file_dir source_root m n
      end
      = if needs_js_extension (specifier k m)
        then new_path ← add_js_extension t (specifier k m) file_dir source_root;
             Ok (before_quote k m ++ opening_quote k m ++ new_path
                   ++ opening_quote k m ++ after_quote k, n + 1)
        else Ok (m_text m, n).
Proof.
  intros [rest Hin]%match_here_Some. destruct m as [mt g]. cbn [m_text m_groups] in Hin.
  destruct k; cbn [pattern_of] in Hin.
  - apply pattern1_match_shape in Hin as (pre & q & spec & q' & -> & -> & Hq & Hq' & _).
    split.
    + exists q, q'. split_and!; [done|by apply is_quote_true..|].
      cbn. by rewrite ?app_nil_r.
    + intros. rewrite replace_import_export_shape. cbn.
      destruct (needs_js_extension spec); [|done].
      destruct (add_js_extension _ _ _ _); [|done]. simpl. by rewrite ?app_nil_r.
  - apply pattern2_match_shape in Hin as (q & spec & q' & -> & -> & Hq & Hq' & _).
    split.
    + exists q, q'. split_and!; [done|by apply is_quote_true..|done].
    + intros. by rewrite replace_dynamic_import_shape.
Qed.

Lemma statement_length k m :
  statement k m →
  length (opening_quote k m) = 1
  ∧ length (m_text m)
    = length (before_quote k m) + length (specifier k m) + length (after_quote k) + 2.
Proof.
  intros (q & q' & Hq & _ & _ & Hm). rewrite Hm, Hq, !length_app. simpl. lia.
Qed.

Lemma pattern_no_empty_match k s m : match_here (pattern_of k) s = Some m → m_text m ≠ [].
Proof.
  intros Hm. destruct (match_here_statement k s m Hm) as [Hst _].
  apply statement_length in Hst as [_ Hl]. intros E. rewrite E in Hl. simpl in Hl. lia.
Qed.

(** Each pass does what [pass] says. *)
Lemma sub_pass t file_dir source_root k s :
  ∀ n, pass t file_dir source_root k s n
         (sub (pattern_of k)
            match k with
            | Static => replace_import_export t file_dir source_root
            | Dynamic => replace_dynamic_import t file_dir source_root
            end s n).
Proof.
  remember (length s) as len eqn:Hlen. revert s Hlen.
  induction len as [len IH] using lt_wf_ind. intros s -> n.
  destruct (first_match_or_none (pattern_of k) s (pattern_no_empty_match k))
    as [Hno|(u & m & rest & -> & Hfm)].
  - rewrite sub_no_match by done. by apply pass_end.
  - pose proof Hfm as [_ Hm].
    pose proof (pattern_no_empty_match k _ m Hm) as Hne.
    destruct (match_here_statement k _ m Hm) as [Hst Hcb].
    assert (Hshort : length rest < length (u ++ m_text m ++ rest)).
    { rewrite !length_app. destruct (m_text m); [done|]. simpl. lia. }
    rewrite sub_first_match by done.
    assert (Hcb' := Hcb t file_dir source_root n).
    destruct k; rewrite Hcb'; clear Hcb'.
    all: destruct (needs_js_extension _) eqn:En; cbn [mbind result_bind].
    all: try (apply pass_keep; [done..|]; by apply (IH (length rest))).
    all: destruct (add_js_extension _ _ _ _) as [new_path|e] eqn:Ea; cbn [mbind result_bind].
    all: try (by apply pass_abort).
    all: apply pass_rewrite; [done..|]; by apply (IH (length rest)).
Qed.

(** The counter goes up by the number of rewrites, every rewrite makes
    the text longer, and without a rewrite the text comes back as it
    was. *)
Lemma pass_counts t file_dir source_root k s n out n1 :
  pass t file_dir source_root k s n (Ok (out, n1)) →
  n ≤ n1 ∧ length s + (n1 - n) ≤ length out ∧ (n1 = n → out = s).
Proof.
  remember (Ok (out, n1)) as res eqn:Hres. intros Hp. revert out n1 Hres.
  induction Hp as [s n Hno|u m rest n res Hfm Hst En Hp IH
                  |u m rest n new_path res Hfm Hst En Ea Hp IH
                  |u m rest n e Hfm Hst En Ea]; intros out n1 Hres.
  - injection Hres as <- <-. split_and!; [lia|lia|done].
  - apply prepend_Ok in Hres as (o & -> & ->).
    destruct (IH o n1 eq_refl) as (Hle & Hlen & Heq).
    rewrite !length_app in *. split_and!; [lia|lia|].
    intros E. by rewrite (Heq E), <- app_assoc.
  - apply prepend_Ok in Hres as (o & -> & ->).
    destruct (IH o n1 eq_refl) as (Hle & Hlen & Heq).
    destruct (statement_length k m Hst) as [Hq Hm].
    pose proof (add_js_extension_longer _ _ _ _ _ En Ea) as Hnew.
    rewrite !length_app in *. split_and!; [lia|lia|lia].
  - done.
Qed.

(** What [rewrite_content] returns is what the first pass and then the
    second make of the text. *)
Lemma rewrite_content_passes t file_dir source_root content :
  ∃ mid,
    pass t file_dir source_root Static content 0 mid
    ∧ match mid with
      | Ok (content1, changes1) =>
          pass t file_dir source_root Dynamic content1 changes1
            (rewrite_content t file_dir source_root content)
      | Raise e => rewrite_content t file_dir source_root content = Raise e
      end.
Proof.
  unfold rewrite_content.
  exists (sub pattern1 (replace_import_export t file_dir source_root) content 0).
  split; [apply (sub_pass t file_dir source_root Static)|].
  destruct (sub pattern1 _ content 0) as [[content1 changes1]|e]; [|done].
  apply (sub_pass t file_dir source_root Dynamic).
Qed.

(** Every rewrite lengthens the text, and a file without one comes
    out of the two passes as it went in. *)
Lemma rewrite_content_counts t file_dir source_root content out n :
  rewrite_content t file_dir source_root content = Ok (out, n) →
  length content + n ≤ length out ∧ (n = 0 → out = content).
Proof.
  intros Hrc. destruct (rewrite_content_passes t file_dir source_root content)
    as ([[c1 n1]|e] & H1 & H2); [|congruence].
  rewrite Hrc in H2.
  apply pass_counts in H1 as (_ & Hl1 & He1). apply pass_counts in H2 as (Hle & Hl2 & He2).
  split; [lia|]. intros ->. assert (n1 = 0) as -> by lia.
  rewrite He2, He1; done.
Qed.

Lemma rewrite_content_changed t file_dir source_root content out n :
  rewrite_content t file_dir source_root content = Ok (out, n) →
  out ≠ content ↔ 0 < n.
Proof.
  intros [Hl He]%rewrite_content_counts. split.
  - intros Hne. destruct n; [by destruct Hne; apply He|lia].
  - intros Hn ->. lia.
Qed.

(** The classification of the specification, read off a pass. *)
Lemma pass_classified t file_dir source_root k s n out n1 :
  pass t file_dir source_root k s n (Ok (out, n1)) → classified k s out.
Proof.
  remember (Ok (out, n1)) as res eqn:Hres. intros Hp. revert out n1 Hres.
  induction Hp as [s n Hno|u m rest n res Hfm Hst En Hp IH
                  |u m rest n new_path res Hfm Hst En Ea Hp IH
                  |u m rest n e Hfm Hst En Ea]; intros out n1 Hres.
  - injection Hres as <- <-. by apply classified_end.
  - apply prepend_Ok in Hres as (o & -> & ->).
    rewrite <- app_assoc. apply classified_keep; [done|done| |by eapply IH].
    intros [Hrel Hjs]. apply not_true_iff_false in En. apply En.
    apply needs_js_extension_true. rewrite !startswith_true. split; [done|].
    apply not_true_iff_false. by rewrite endswith_true.
  - apply prepend_Ok in Hres as (o & -> & ->).
    rewrite <- !app_assoc. apply classified_rewrite; [done|done| | |by eapply IH].
    + apply needs_js_extension_true in En as [Hrel Hjs].
      rewrite !startswith_true in Hrel. split; [done|].
      apply not_true_iff_false in Hjs. by rewrite endswith_true in Hjs.
    + by eapply add_js_extension_cases.
  - done.
Qed.

End PassFacts.

(** ** The import fixer: one file *)

Section FileFacts.
Import Re EsmImports EsmReport.
Context `{UnicodeDB} `{Platform}.

Lemma same_shape_exists t t' p : same_shape t t' → path_exists t p = path_exists t' p.
Proof.
  intros [Hdom _]. unfold path_exists, node_at. destruct p as [|c p]; [done|].
  assert (Hd : c :: p ∈ dom t ↔ c :: p ∈ dom t') by by rewrite Hdom.
  rewrite !elem_of_dom in Hd.
  destruct (t !! (c :: p)) eqn:E1, (t' !! (c :: p)) eqn:E2; try done.
  - destruct Hd as [Hd _]. by destruct Hd.
  - destruct Hd as [_ Hd]. by destruct Hd.
Qed.

Lemma same_shape_refl t : same_shape t t.
Proof. by split. Qed.

Lemma same_shape_trans t1 t2 t3 : same_shape t1 t2 → same_shape t2 t3 → same_shape t1 t3.
Proof. intros [Hd1 Hi1] [Hd2 Hi2]. split; [congruence|]. intros p. by rewrite Hi1. Qed.



(** The passes see the tree through its shape only, and do not look
    at the source root. *)
Lemma rewrite_content_same_shape t t' file_dir source_root source_root' content :
  same_shape t t' →
  rewrite_content t file_dir source_root content
  = rewrite_content t' file_dir source_root' content.
Proof.
  intros Hs. unfold rewrite_content, ReSub.sub.
  assert (Ha : ∀ p, add_js_extension t p file_dir source_root
                    = add_js_extension t' p file_dir source_root').
  { intros p. apply add_js_extension_same_shape; [apply Hs|].
    intros q. by apply same_shape_exists. }
  rewrite (sub_from_agree pattern1 (replace_import_export t file_dir source_root)
             (replace_import_export t' file_dir source_root')).
  2: { intros m st. unfold replace_import_export. by rewrite Ha. }
  destruct (ReSub.sub_from pattern1 _ 0 content 0) as [[c1 n1]|e]; [|done]. simpl.
  apply sub_from_agree. intros m st. unfold replace_dynamic_import. by rewrite Ha.
Qed.

Lemma overwrite_same_shape t f r w d d' :
  node_at t f = Some (File r w d) → same_shape t (<[f := File r w d']> t).
Proof.
  intros Hn. assert (Hf : t !! f = Some (File r w d)) by (by destruct f).
  split.
  - symmetry. apply dom_insert_lookup_L. by rewrite Hf.
  - intros p. unfold is_dir, node_at. destruct p as [|c p]; [done|].
    destruct (decide (f = c :: p)) as [->|Hne].
    + by rewrite lookup_insert_eq, Hf.
    + by rewrite lookup_insert_ne.
Qed.

(** The tree matters to what the passes make of a file through its
    shape and through that file only. *)
Lemma file_passes_stable t t' g :
  same_shape t t' → t' !! g = t !! g → file_passes t' g = file_passes t g.
Proof.
  intros Hs Hg. unfold file_passes.
  assert (Hn : node_at t' g = node_at t g) by (by destruct g).
  rewrite Hn. destruct (node_at t g) as [[|[] wr d]|]; try done.
  by rewrite (rewrite_content_same_shape t t' _ [] [] d Hs).
Qed.

Lemma report_stable t t' g :
  same_shape t t' → t' !! g = t !! g →
  written_back t' g = written_back t g ∧ rewrite_count t' g = rewrite_count t g
  ∧ rewritten_text t' g = rewritten_text t g ∧ aborts t' g = aborts t g.
Proof.
  intros Hs Hg. unfold written_back, rewrite_count, rewritten_text, aborts.
  assert (Hn : node_at t' g = node_at t g) by (by destruct g).
  by rewrite Hn, (file_passes_stable t t' g Hs Hg).
Qed.

End FileFacts.

Section FileRun.
Import Re EsmImports EsmReport.
Context `{UnicodeDB} `{Platform}.

Lemma fix_imports_in_file_read_error f root w e :
  read_file f w = (Raise e, w) →
  fix_imports_in_file f root w
  = (Ok (false, 0),
     printed w [txt "Error reading " ++ path_str f ++ txt ": " ++ str_exn e]).
Proof.
  intros Hr. unfold fix_imports_in_file, mbind, M_bind, bind, attempt. by rewrite Hr.
Qed.

(** An exception raised inside the passes leaves the call as it
    is. *)
Lemma fix_imports_in_file_raises f root w content e :
  read_file f w = (Ok content, w) →
  rewrite_content (tree w) (parent f) root content = Raise e →
  fix_imports_in_file f root w = (Raise e, w).
Proof.
  intros Hr Hrc. unfold fix_imports_in_file, mbind, M_bind, bind, attempt.
  rewrite Hr. cbn [get_tree]. unfold of_result. by rewrite Hrc.
Qed.

Lemma fix_imports_in_file_unchanged f root w content n :
  read_file f w = (Ok content, w) →
  rewrite_content (tree w) (parent f) root content = Ok (content, n) →
  fix_imports_in_file f root w = (Ok (false, 0), w).
Proof.
  intros Hr Hrc. unfold fix_imports_in_file, mbind, M_bind, bind, attempt.
  rewrite Hr. cbn [get_tree]. unfold of_result. rewrite Hrc.
  by rewrite decide_False by (intros Hne; by apply Hne).
Qed.

Lemma fix_imports_in_file_changed f root w content out n :
  read_file f w = (Ok content, w) →
  rewrite_content (tree w) (parent f) root content = Ok (out, n) →
  out ≠ content →
  fix_imports_in_file f root w
  = match write_file f out w with
    | (Ok _, w1) => (Ok (true, n), w1)
    | (Raise e, w1) =>
        (Ok (false, 0),
         printed w1 [txt "Error writing " ++ path_str f ++ txt ": " ++ str_exn e])
    end.
Proof.
  intros Hr Hrc Hne. unfold fix_imports_in_file, mbind, M_bind, bind, attempt.
  rewrite Hr. cbn [get_tree]. unfold of_result. rewrite Hrc.
  rewrite decide_True by done.
  by destruct (write_file f out w) as [[[]|e] w1].
Qed.


(** What one call reports otherwise, in terms of the tree it started
    from, and what it leaves of that tree. *)
Lemma fix_imports_in_file_spec f root w :
  aborts (tree w) f = false →
  ∃ w1,
    fix_imports_in_file f root w
    = (Ok (written_back (tree w) f,
           if written_back (tree w) f then rewrite_count (tree w) f else 0), w1)
    ∧ same_shape (tree w) (tree w1)
    ∧ ∀ g, g ≠ f → tree w1 !! g = tree w !! g.
Proof.
  unfold aborts, written_back, rewrite_count, file_passes. intros Ha.
  destruct (read_file f w) as [[content|e] w0] eqn:Hr.
  - pose proof Hr as Hr'. apply read_file_inv in Hr' as [-> [wr Hn]]. rewrite Hn in *.
    rewrite (rewrite_content_same_shape _ (tree w) _ [] root content (same_shape_refl _))
      in *.
    destruct (rewrite_content (tree w) (parent f) root content) as [[out n]|e] eqn:Hrc;
      [|done].
    destruct (decide (out = content)) as [->|Hne].
    + rewrite (fix_imports_in_file_unchanged f root w content n Hr Hrc).
      assert (n = 0) as ->.
      { destruct (rewrite_content_changed _ _ _ _ _ _ Hrc) as [_ Hc].
        destruct n; [done|]. destruct Hc; [lia|done]. }
      exists w. split_and!; [by destruct wr|apply same_shape_refl|done].
    + rewrite (fix_imports_in_file_changed f root w content out n Hr Hrc Hne).
      apply (rewrite_content_changed _ _ _ _ _ _ Hrc) in Hne as Hpos.
      unfold write_file. rewrite Hn. destruct wr.
      * eexists. split; [|split].
        -- by rewrite (proj2 (Nat.ltb_lt _ _) Hpos).
        -- cbn [tree]. by eapply overwrite_same_shape.
        -- intros g Hg. cbn [tree]. by rewrite lookup_insert_ne.
      * eexists. split; [reflexivity|]. split; [apply same_shape_refl|done].
  - pose proof Hr as Hr'. apply read_file_inv in Hr' as [-> Hn].
    rewrite (fix_imports_in_file_read_error f root w e Hr).
    exists (printed w [txt "Error reading " ++ path_str f ++ txt ": " ++ str_exn e]).
    split; [|split; [apply same_shape_refl|done]].
    destruct (node_at (tree w) f) as [[|[] wr d]|] eqn:E; try reflexivity.
    by destruct (Hn wr d).
Qed.

End FileRun.

(** ** The import fixer: the loops *)

Section LoopFacts.
Import Re EsmImports EsmReport.
Context `{UnicodeDB} `{Platform}.

Lemma counts_stable t t' files :
  same_shape t t' → (∀ g, g ∈ files → t' !! g = t !! g) →
  files_modified t' files = files_modified t files
  ∧ total_changes t' files = total_changes t files.
Proof.
  intros Hs Hg. unfold files_modified, total_changes.
  assert (Hf : List.filter (written_back t') files = List.filter (written_back t) files).
  { apply filter_ext_in. intros g Hin%list_elem_of_In.
    by destruct (report_stable t t' g Hs (Hg g Hin)). }
  rewrite Hf. split; [done|]. f_equal. apply map_ext_in.
  intros g [Hin%list_elem_of_In _]%filter_In.
  by destruct (report_stable t t' g Hs (Hg g Hin)) as (_ & ? & _).
Qed.

Lemma aborts_stable t t' files :
  same_shape t t' → (∀ g, g ∈ files → t' !! g = t !! g) →
  forallb (λ f, negb (aborts t' f)) files = forallb (λ f, negb (aborts t f)) files.
Proof.
  intros Hs Hg. induction files as [|f files IH]; [done|]. cbn [forallb].
  destruct (report_stable t t' f Hs (Hg f ltac:(left))) as (_ & _ & _ & ->).
  rewrite IH; [done|]. intros g Hin. apply Hg. by right.
Qed.

Lemma counts_cons t f files :
  files_modified t (f :: files)
  = (if written_back t f then 1 else 0) + files_modified t files
  ∧ total_changes t (f :: files)
    = (if written_back t f then rewrite_count t f else 0) + total_changes t files.
Proof.
  unfold files_modified, total_changes. simpl. by destruct (written_back t f).
Qed.


(** One step of the inner loop. *)
Lemma for_each_file_step directory f rest acc w :
  aborts (tree w) f = false →
  ∃ acc' w1,
    for_each_file directory (f :: rest) acc w = for_each_file directory rest acc' w1
    ∧ acc' = (acc.1 + (if written_back (tree w) f then 1 else 0),
              acc.2 + (if written_back (tree w) f then rewrite_count (tree w) f else 0))
    ∧ tree w1 = tree (fix_imports_in_file f directory w).2
    ∧ opened_for_writing w1 = opened_for_writing (fix_imports_in_file f directory w).2
    ∧ same_shape (tree w) (tree w1)
    ∧ ∀ g, g ≠ f → tree w1 !! g = tree w !! g.
Proof.
  intros Ha. destruct (fix_imports_in_file_spec f directory w Ha) as (w1 & Hfix & Hs1 & Ho1).
  cbn [for_each_file]. unfold mbind at 1, M_bind at 1, bind at 1. rewrite Hfix.
  destruct (written_back (tree w) f).
  - unfold mbind at 1, M_bind at 1, bind at 1, print at 1.
    eexists _, _. split; [reflexivity|]. by split_and!.
  - exists acc, w1. split; [reflexivity|]. split_and!; try done.
    destruct acc as [fm tc]. cbn. by rewrite !Nat.add_0_r.
Qed.

(** The inner loop adds, for the files it was given, those written
    back and their rewrites, as counted on the tree it started from,
    provided none of the files makes the passes raise. *)
Lemma for_each_file_spec directory files :
  NoDup files →
  ∀ acc w,
    forallb (λ f, negb (aborts (tree w) f)) files = true →
    ∃ w1,
      for_each_file directory files acc w
      = (Ok (acc.1 + files_modified (tree w) files,
             acc.2 + total_changes (tree w) files), w1)
      ∧ same_shape (tree w) (tree w1)
      ∧ ∀ g, g ∉ files → tree w1 !! g = tree w !! g.
Proof.
  induction files as [|f rest IH]; intros Hnd [fm tc] w Hok.
  - exists w. unfold files_modified, total_changes. simpl.
    rewrite !Nat.add_0_r. split; [done|]. split; [apply same_shape_refl|done].
  - apply NoDup_cons in Hnd as [Hf Hnd].
    cbn [forallb] in Hok. apply andb_true_iff in Hok as [Ha%negb_true_iff Hok].
    destruct (for_each_file_step directory f rest (fm, tc) w Ha)
      as (acc' & w1 & -> & Hacc & _ & _ & Hs1 & Ho1).
    assert (Hagree : ∀ g, g ∈ rest → tree w1 !! g = tree w !! g).
    { intros g Hg. apply Ho1. by intros ->. }
    destruct (counts_cons (tree w) f rest) as [-> ->].
    destruct (counts_stable (tree w) (tree w1) rest Hs1 Hagree) as [Hst1 Hst2].
    rewrite <- (aborts_stable (tree w) (tree w1) rest Hs1 Hagree) in Hok.
    destruct (IH Hnd acc' w1 Hok) as (w3 & -> & Hs3 & Ho3).
    exists w3. subst acc'. cbn [fst snd]. rewrite Hst1, Hst2.
    split; [by rewrite <- !Nat.add_assoc|]. split; [by eapply same_shape_trans|].
    intros g Hg. apply not_elem_of_cons in Hg as [Hgf Hg]. by rewrite Ho3, Ho1.
Qed.













End LoopFacts.

(** ** The import fixer: a whole run *)

Section MainFacts.
Import Re EsmImports EsmReport.
Context `{UnicodeDB} `{Platform}.






End MainFacts.

(** ** Where an exception that ends a run comes from *)

Section Provenance.
Import Re ReSub EsmImports EsmReport.
Context `{UnicodeDB} `{Platform}.

Lemma add_js_extension_raise t p file_dir source_root e :
  add_js_extension t p file_dir source_root = Raise e → raised_by_lookup e.
Proof.
  unfold add_js_extension. destruct (negb _); [done|].
  unfold Path_resolve, Path_is_dir, Path_exists.
  destruct (resolve_error _) as [e0|] eqn:Er; simpl.
  { intros [= <-]. left. eauto. }
  destruct (stat_error (resolve _)) as [e1|] eqn:Es1; simpl.
  { destruct (ignore_error e1) eqn:Ei; simpl; [done|]. intros [= <-]. right. eauto. }
  destruct (is_dir t _); simpl; [|done].
  destruct (stat_error (joinpath _ _)) as [e2|] eqn:Es2; simpl.
  { destruct (ignore_error e2) eqn:Ei; simpl; [done|]. intros [= <-]. right. eauto. }
  destruct (path_exists t _); simpl; [by destruct (endswith (txt "/index") p)|done].
Qed.

Lemma pass_raise t file_dir source_root k s n e :
  pass t file_dir source_root k s n (Raise e) → raised_by_lookup e.
Proof.
  remember (Raise e) as res eqn:Hres. intros Hp. revert Hres.
  induction Hp as [s n Hno|u m rest n res Hfm Hst En Hp IH
                  |u m rest n new_path res Hfm Hst En Ea Hp IH
                  |u m rest n e' Hfm Hst En Ea]; intros Hres.
  - done.
  - apply prepend_Raise in Hres. by apply IH.
  - apply prepend_Raise in Hres. by apply IH.
  - injection Hres as ->. by eapply add_js_extension_raise.
Qed.

Lemma rewrite_content_raise t file_dir source_root content e :
  rewrite_content t file_dir source_root content = Raise e → raised_by_lookup e.
Proof.
  intros Hrc. destruct (rewrite_content_passes t file_dir source_root content)
    as ([[c1 n1]|e'] & H1 & H2).
  - rewrite Hrc in H2. by eapply pass_raise.
  - rewrite Hrc in H2. injection H2 as ->. by eapply pass_raise.
Qed.

Lemma fix_imports_in_file_raise f root w e w1 :
  fix_imports_in_file f root w = (Raise e, w1) →
  w1 = w
  ∧ ∃ old wr, node_at (tree w) f = Some (File true wr old)
              ∧ rewrite_content (tree w) (parent f) root old = Raise e.
Proof.
  destruct (read_file f w) as [[content|e0] w0] eqn:Hr.
  - pose proof Hr as Hr'. apply read_file_inv in Hr' as [-> [wr Hn]].
    destruct (rewrite_content (tree w) (parent f) root content) as [[out n]|e1] eqn:Hrc.
    + destruct (decide (out = content)) as [->|Hne].
      * by rewrite (fix_imports_in_file_unchanged f root w content n Hr Hrc).
      * rewrite (fix_imports_in_file_changed f root w content out n Hr Hrc Hne).
        by destruct (write_file f out w) as [[[]|e2] w2].
    + rewrite (fix_imports_in_file_raises f root w content e1 Hr Hrc).
      intros [= <- <-]. split; [done|]. by exists content, wr.
  - pose proof Hr as Hr'. apply read_file_inv in Hr' as [-> _].
    by rewrite (fix_imports_in_file_read_error f root w e0 Hr).
Qed.





End Provenance.

(** ** Claims about the import fixer *)

Section EsmClaims.
Import Re ReSub EsmImports EsmReport.
Context `{UnicodeDB} `{Platform}.

(** C1: whenever the two passes return a text, it is the text read
    with each statement the first pattern matched, and then each call
    the second pattern matched, treated by the rule of [classified]:
    the specifier comes out extended exactly when it begins with [./]
    or [../] and does not end with [.js], which is when
    [needs_js_extension] holds; every other matched statement, and
    all text outside the matches, comes out byte for byte as it was;
    and a text in which nothing was rewritten comes out unchanged. *)
Theorem rewritten_iff_relative_without_js
    (t : gmap path node) (file_dir source_root : path) (content out : text) (n : nat) :
  rewrite_content t file_dir source_root content = Ok (out, n) →
  (∀ spec, needs_js_extension spec = true ↔ relative spec ∧ ¬ ends_with_js spec)
  ∧ (∃ mid, classified Static content mid ∧ classified Dynamic mid out)
  ∧ (n = 0 → out = content).
Proof.
  intros Hrc. split_and!.
  - intros spec. unfold relative, ends_with_js.
    rewrite needs_js_extension_true, !startswith_true.
    by rewrite <- not_true_iff_false, endswith_true.
  - destruct (rewrite_content_passes t file_dir source_root content)
      as ([[c1 n1]|e] & H1 & H2); [|congruence].
    rewrite Hrc in H2. exists c1. split; by eapply pass_classified.
  - by apply rewrite_content_counts in Hrc as [_ ?].
Qed.

(** C2, amended: for a specifier that needs rewriting,
    [add_js_extension] resolves it against the directory of the
    importing file, so that [./name] is the entry [name] of that
    directory and [../name] the entry [name] of its parent.  When
    none of [resolve()], [is_dir()] and [exists()] raises: if the
    resolved path is a directory holding [index.ts] the result is the
    specifier with [/index.js] appended, or with just [.js] if it
    already ends with [/index]; in every other case [.js] is
    appended; so [./foo] with such a directory gives
    [./foo/index.js], and a specifier ending with [/index] always
    gets [.js].  When a lookup raises, [add_js_extension] raises the
    same exception. *)
Theorem add_js_extension_resolution
    (t : gmap path node) (import_path : text) (file_dir source_root : path) :
  needs_js_extension import_path = true →
  resolve file_dir = file_dir →
  let joined := joinpath file_dir import_path in
  let resolved_path := resolve joined in
  let index_ts := resolved_path ++ [txt "index.ts"] in
  let has_index := is_dir t resolved_path && path_exists t index_ts in
  let result := add_js_extension t import_path file_dir source_root in
  (resolve_error joined = None → stat_error resolved_path = None →
   stat_error index_ts = None →
   (has_index = true → endswith (txt "/index") import_path = false →
    result = Ok (import_path ++ txt "/index.js"))
   ∧ (has_index = true → endswith (txt "/index") import_path = true →
      result = Ok (import_path ++ txt ".js"))
   ∧ (has_index = false → result = Ok (import_path ++ txt ".js"))
   ∧ (endswith (txt "/index") import_path = true → result = Ok (import_path ++ txt ".js"))
   ∧ (∀ name, plain_name name → name ≠ txt "index" → import_path = txt "./" ++ name →
        t !! (file_dir ++ [name]) = Some Dir →
        is_Some (t !! (file_dir ++ [name; txt "index.ts"])) →
        result = Ok (txt "./" ++ name ++ txt "/index.js"))
   ∧ (∀ name, plain_name name → name ≠ txt "index" → import_path = txt "../" ++ name →
        t !! (parent file_dir ++ [name]) = Some Dir →
        is_Some (t !! (parent file_dir ++ [name; txt "index.ts"])) →
        result = Ok (txt "../" ++ name ++ txt "/index.js")))
  ∧ (∀ name, plain_name name → import_path = txt "./" ++ name →
       resolved_path = file_dir ++ [name])
  ∧ (∀ name, plain_name name → import_path = txt "../" ++ name →
       resolved_path = parent file_dir ++ [name])
  ∧ (∀ name entry, plain_name name → plain_name entry →
       import_path = txt "./" ++ name ++ txt "/" ++ entry →
       resolved_path = file_dir ++ [name; entry])
  ∧ (∀ e, resolve_error joined = Some e → result = Raise e)
  ∧ (∀ e, resolve_error joined = None → stat_error resolved_path = Some e →
          ignore_error e = false → result = Raise e)
  ∧ (∀ e, resolve_error joined = None → stat_error resolved_path = None →
          is_dir t resolved_path = true → stat_error index_ts = Some e →
          ignore_error e = false → result = Raise e).
Proof.
  intros Hn Hdir joined resolved_path index_ts has_index result.
  assert (Hres : result =
    (resolved ← Path_resolve joined;
     is_directory ← Path_is_dir t resolved;
     index_exists ← (if is_directory : bool
                     then Path_exists t (resolved ++ [txt "index.ts"])
                     else Ok false);
     Ok (if index_exists : bool
         then (if endswith (txt "/index") import_path
               then import_path ++ txt ".js" else import_path ++ txt "/index.js")
         else import_path ++ txt ".js"))).
  { subst result joined. by apply add_js_extension_unfold. }
  assert (Hquiet : resolve_error joined = None → stat_error resolved_path = None →
                   stat_error index_ts = None →
                   result = Ok (if has_index
                                then (if endswith (txt "/index") import_path
                                      then import_path ++ txt ".js"
                                      else import_path ++ txt "/index.js")
                                else import_path ++ txt ".js")).
  { intros Hr Hs Hi. rewrite Hres. unfold Path_resolve, Path_is_dir, Path_exists.
    rewrite Hr. cbn [mbind result_bind]. fold resolved_path. rewrite Hs.
    cbn [mbind result_bind]. fold index_ts. subst has_index.
    destruct (is_dir t resolved_path); cbn [andb mbind result_bind]; [|done].
    by rewrite Hi. }
  assert (Hnode : ∀ p c, t !! (p ++ [c]) = Some Dir → is_dir t (p ++ [c]) = true).
  { intros p c Hp. unfold is_dir, node_at. destruct (p ++ [c]) eqn:E; [by destruct p|].
    by rewrite Hp. }
  assert (Hsome : ∀ p c, is_Some (t !! (p ++ [c])) → path_exists t (p ++ [c]) = true).
  { intros p c [x Hp]. unfold path_exists, node_at. destruct (p ++ [c]) eqn:E; [done|].
    by rewrite Hp. }
  split_and!.
  - intros Hr Hs Hi. specialize (Hquiet Hr Hs Hi). split_and!.
    + intros Hh He. by rewrite Hquiet, Hh, He.
    + intros Hh He. by rewrite Hquiet, Hh, He.
    + intros Hh. by rewrite Hquiet, Hh.
    + intros He. rewrite Hquiet, He. by destruct has_index.
    + intros name Hp Hni -> Hd Hix.
      assert (Hrp : resolved_path = file_dir ++ [name]) by by apply resolve_dot.
      assert (Hh : has_index = true).
      { subst has_index index_ts. rewrite Hrp, <- app_assoc. cbn [app].
        rewrite Hnode by done.
        change (file_dir ++ [name; txt "index.ts"])
          with (file_dir ++ [name] ++ [txt "index.ts"]).
        rewrite app_assoc. apply Hsome. by rewrite <- app_assoc. }
      rewrite Hquiet, Hh, plain_name_not_index by auto. by rewrite <- app_assoc.
    + intros name Hp Hni -> Hd Hix.
      assert (Hrp : resolved_path = parent file_dir ++ [name]) by by apply resolve_dotdot.
      assert (Hh : has_index = true).
      { subst has_index index_ts. rewrite Hrp, <- app_assoc. cbn [app].
        rewrite Hnode by done.
        change (parent file_dir ++ [name; txt "index.ts"])
          with (parent file_dir ++ [name] ++ [txt "index.ts"]).
        rewrite app_assoc. apply Hsome. by rewrite <- app_assoc. }
      rewrite Hquiet, Hh, plain_name_not_index by auto. by rewrite <- app_assoc.
  - intros name Hp ->. by apply resolve_dot.
  - intros name Hp ->. by apply resolve_dotdot.
  - intros name entry Hp He ->. by apply resolve_dot_entry.
  - intros e Hr. rewrite Hres. unfold Path_resolve. by rewrite Hr.
  - intros e Hr Hs Hi. rewrite Hres. unfold Path_resolve, Path_is_dir.
    rewrite Hr. cbn [mbind result_bind]. fold resolved_path. by rewrite Hs, Hi.
  - intros e Hr Hs Hd Hix Hi. rewrite Hres. unfold Path_resolve, Path_is_dir, Path_exists.
    rewrite Hr. cbn [mbind result_bind]. fold resolved_path. rewrite Hs, Hd.
    cbn [mbind result_bind]. fold index_ts. by rewrite Hix, Hi.
Qed.


(** C10: a result of [add_js_extension] is its argument when no
    rewrite is needed and ends with [.js] otherwise; applying
    [add_js_extension] to it again, in any tree, returns it
    unchanged, and both callbacks leave a match around it alone. *)
Theorem add_js_extension_idempotent
    (t t' : gmap path node) (spec out : text)
    (file_dir source_root file_dir' source_root' : path) :
  add_js_extension t spec file_dir source_root = Ok out →
  ((needs_js_extension spec = false ∧ out = spec)
   ∨ (needs_js_extension spec = true ∧ endswith (txt ".js") out = true))
  ∧ needs_js_extension out = false
  ∧ add_js_extension t' out file_dir' source_root' = Ok out
  ∧ (∀ pre q q' n,
       replace_import_export t' file_dir' source_root'
         (MkMatch (pre ++ [q] ++ out ++ [q']) [(4, [q']); (3, out); (2, [q]); (1, pre)]) n
       = Ok (pre ++ [q] ++ out ++ [q'], n))
  ∧ (∀ q q' n,
       replace_dynamic_import t' file_dir' source_root'
         (MkMatch (txt "import(" ++ [q] ++ out ++ [q'] ++ txt ")")
            [(3, [q']); (2, out); (1, [q])]) n
       = Ok (txt "import(" ++ [q] ++ out ++ [q'] ++ txt ")", n)).
Proof.
  intros Ho.
  assert (Hcase : (needs_js_extension spec = false ∧ out = spec)
                  ∨ (needs_js_extension spec = true ∧ endswith (txt ".js") out = true)).
  { destruct (needs_js_extension spec) eqn:E.
    - right. split; [done|]. by eapply add_js_extension_ends_js.
    - left. split; [done|]. rewrite add_js_extension_skip in Ho by done. by injection Ho. }
  assert (Hout : needs_js_extension out = false).
  { destruct Hcase as [[E ->]|[_ E]]; [done|by apply ends_js_not_needed]. }
  split_and!.
  - done.
  - done.
  - by apply add_js_extension_skip.
  - intros. by rewrite replace_import_export_shape, Hout.
  - intros. by rewrite replace_dynamic_import_shape, Hout.
Qed.

End EsmClaims.

Section EsmRunClaims.
Import Re EsmImports EsmReport.
Context `{UnicodeDB} `{Platform}.

Lemma read_file_world p w : (read_file p w).2 = w.
Proof. unfold read_file. by destruct (node_at (tree w) p) as [[|[] ? ?]|]. Qed.

Lemma read_file_fst p w r : (read_file p w).1 = r → read_file p w = (r, w).
Proof.
  intros Hr. pose proof (read_file_world p w) as Hw.
  destruct (read_file p w) as [r0 w0]. simpl in *. by subst.
Qed.



(** C5: when the text the substitutions produce equals the text that
    was read, the grid-snap patcher opens nothing for writing and
    leaves the tree as it is, and so does the import fixer for a file
    whose text, if the two passes return one, is the text read. *)
Theorem no_write_without_change (w : world) (content : text) (file_path source_root : path) :
  ((read_file GridSnap.target w).1 = Ok content →
   GridSnapText.apply_replacements content = content →
   opened_for_writing (GridSnap.run w).2 = opened_for_writing w
   ∧ tree (GridSnap.run w).2 = tree w)
  ∧ ((read_file file_path w).1 = Ok content →
     (∀ out n, rewrite_content (tree w) (parent file_path) source_root content = Ok (out, n) →
               out = content) →
     opened_for_writing (fix_imports_in_file file_path source_root w).2
     = opened_for_writing w
     ∧ tree (fix_imports_in_file file_path source_root w).2 = tree w).
Proof.
  split; intros Hr Heq.
  - assert (Hr' : read_file GridSnap.target w = (Ok content, w)) by (by apply read_file_fst).
    unfold GridSnap.run. by rewrite (script_no_change w content Hr' Heq).
  - assert (Hr' : read_file file_path w = (Ok content, w)) by (by apply read_file_fst).
    destruct (rewrite_content (tree w) (parent file_path) source_root content)
      as [[out n]|e] eqn:Hrc.
    + rewrite (Heq out n eq_refl) in Hrc.
      by rewrite (fix_imports_in_file_unchanged file_path source_root w content n Hr' Hrc).
    + by rewrite (fix_imports_in_file_raises file_path source_root w content e Hr' Hrc).
Qed.


End EsmRunClaims.

(** ** The claims at sample inputs *)

Section EsmSamples.
Import Re EsmImports EsmReport Samples.

#[local] Existing Instance ascii_db.
#[local] Existing Instance linux.

Lemma rewritten_iff_relative_without_js_witness :
  (∀ spec, needs_js_extension spec = true ↔ relative spec ∧ ¬ ends_with_js spec)
  ∧ (∃ mid, classified Static app_ts mid
            ∧ classified Dynamic mid (txt "import { a } from './foo/index.js';
import type { T } from './foo/index.js';
export * from './bar.js';
import z from 'zod';
const m = await import('./dyn.js');
"))
  ∧ (3 = 0 → txt "import { a } from './foo/index.js';
import type { T } from './foo/index.js';
export * from './bar.js';
import z from 'zod';
const m = await import('./dyn.js');
" = app_ts).
Proof.
  apply (rewritten_iff_relative_without_js (tree (project true)) src src).
  vm_compute. reflexivity.
Defined.

Lemma add_js_extension_resolution_witness :
  add_js_extension (tree (project true)) (txt "../foo") (src ++ [txt "lib"]) src
  = Ok (txt "../foo/index.js")
  ∧ resolve (joinpath (src ++ [txt "lib"]) (txt "../foo")) = src ++ [txt "foo"].
Proof.
  destruct (add_js_extension_resolution (tree (project true)) (txt "../foo")
              (src ++ [txt "lib"]) src)
    as (Hquiet & _ & Hup & _).
  - vm_compute. reflexivity.
  - vm_compute. reflexivity.
  - assert (Hp : plain_name (txt "foo")).
    { split_and!; try (intros E; vm_compute in E; discriminate).
      apply no_slash_check. vm_compute. reflexivity. }
    split.
    + destruct Hquiet as (_ & _ & _ & _ & _ & Hfoo);
        [vm_compute; reflexivity|vm_compute; reflexivity|vm_compute; reflexivity|].
      apply (Hfoo (txt "foo")).
      * exact Hp.
      * intros E. vm_compute in E. discriminate.
      * reflexivity.
      * vm_compute. reflexivity.
      * exists (File true true (txt "export const a = 1;")). vm_compute. reflexivity.
    + apply (Hup (txt "foo") Hp). reflexivity.
Defined.

(** C2 as stated fails: a specifier that needs rewriting and does not
    resolve to a directory does not always come back with [.js]
    appended.  With a name of 300 characters in it, [is_dir()]
    raises and so does [add_js_extension]. *)
Lemma long_specifier_is_not_extended :
  let spec := txt "./" ++ long_name in
  let t := tree long_project in
  needs_js_extension spec = true
  ∧ is_dir t (resolve (joinpath src spec)) = false
  ∧ add_js_extension t spec src src ≠ Ok (spec ++ txt ".js")
  ∧ add_js_extension t spec src src
    = Raise (OSError 36 (txt "File name too long") (path_str (src ++ [long_name]))).
Proof.
  assert (Hr : add_js_extension (tree long_project) (txt "./" ++ long_name) src src
               = Raise (OSError 36 (txt "File name too long") (path_str (src ++ [long_name]))))
    by (vm_compute; reflexivity).
  cbv zeta. rewrite Hr. split_and!; [vm_compute; reflexivity..|discriminate|reflexivity].
Qed.

Lemma add_js_extension_idempotent_witness :
  needs_js_extension (txt "./foo/index.js") = false
  ∧ add_js_extension (tree (project false)) (txt "./foo/index.js") [] [] = Ok (txt "./foo/index.js").
Proof.
  destruct (add_js_extension_idempotent (tree (project true)) (tree (project false))
              (txt "./foo") (txt "./foo/index.js") src src [] [])
    as (_ & Hn & Ha & _).
  - vm_compute. reflexivity.
  - split; [exact Hn|exact Ha].
Defined.

(** Both quote kinds, through the two passes. *)
Example rewrite_content_keeps_quotes :
  rewrite_content (tree (project true)) src src
     (txt "export * from " ++ [dquote] ++ txt "./dyn" ++ [dquote] ++ txt ";
const m = await import('./foo');")
  = Ok (txt "export * from " ++ [dquote] ++ txt "./dyn.js" ++ [dquote] ++ txt ";
const m = await import('./foo/index.js');", 2).
Proof. vm_compute. reflexivity. Qed.


Lemma no_write_without_change_witness :
  (opened_for_writing (GridSnap.run unrelated_world).2 = []
   ∧ tree (GridSnap.run unrelated_world).2 = tree unrelated_world)
  ∧ (opened_for_writing
       (fix_imports_in_file (src ++ [txt "foo"; txt "index.ts"]) src (project true)).2 = []
     ∧ tree (fix_imports_in_file (src ++ [txt "foo"; txt "index.ts"]) src (project true)).2
       = tree (project true)).
Proof.
  split.
  - apply (proj1 (no_write_without_change unrelated_world (txt "<script></script>") [] [])).
    + vm_compute. reflexivity.
    + vm_compute. reflexivity.
  - apply (proj2 (no_write_without_change (project true) (txt "export const a = 1;")
                    (src ++ [txt "foo"; txt "index.ts"]) src)).
    + vm_compute. reflexivity.
    + intros out n Hrc. vm_compute in Hrc. by injection Hrc as <- _.
Defined.



(** The same with a NUL character in a specifier: [resolve()] raises
    [ValueError]. *)
Example nul_character_aborts_the_run :
  (run script_file nul_project).1 = 1
  ∧ (main script_file nul_project).1 = Raise (ValueError (txt "embedded null byte")).
Proof. vm_compute. split; reflexivity. Qed.

(** A namespace import with [as] is outside the first pattern: after
    [* as] the pattern wants a quote, not a name. *)
Example namespace_import_is_not_matched :
  rewrite_content (tree (project true)) src src (txt "import * as b from '../x/bar'")
  = Ok (txt "import * as b from '../x/bar'", 0).
Proof. vm_compute. reflexivity. Qed.

(** The closing quote of a rewritten literal is the opening one, even
    where the source text closed it with the other kind. *)
Example closing_quote_follows_opening :
  rewrite_content (tree (project true)) src src (txt "import './a" ++ [dquote])
  = Ok (txt "import './a.js'", 1).
Proof. vm_compute. reflexivity. Qed.

(** A side-effect import, a type import over several lines and a
    package import. *)
Example statement_forms :
  rewrite_content (tree (project true)) src src (txt "import './side'
import type
{ T }
from '../types'
import z from 'zod'")
  = Ok (txt "import './side.js'
import type
{ T }
from '../types.js'
import z from 'zod'", 2).
Proof. vm_compute. reflexivity. Qed.


End EsmSamples.

(** * Further properties of the grid-snap patcher *)

Section LiteralFrame.
Import Re.

Variables p r : text.
Hypothesis p_nonempty : p ≠ [].

(** Up to its first occurrence the text is copied, the occurrence is
    replaced, and a remainder without an occurrence is copied too. *)
Lemma sub_lit_frame a b :
  leftmost p a → ¬ occurs p b → sub_str (Lit p) r (a ++ p ++ b) = a ++ r ++ b.
Proof.
  intros Ha Hb. induction a as [|c a IH].
  - simpl. rewrite (sub_lit_hit p r p_nonempty (p ++ b) b) by done. f_equal.
    apply (replaced_absent p r b _ Hb), sub_lit_replaced, p_nonempty.
  - assert (E : startswith p (c :: a ++ p ++ b) = false).
    { destruct (startswith p (c :: a ++ p ++ b)) eqn:E; [|done].
      apply startswith_true in E as [x Hx].
      assert (Hlen : length p ≤ length ((c :: a) ++ p)) by (rewrite length_app; lia).
      assert (Hp : (c :: a) ++ p = p ++ take (length ((c :: a) ++ p) - length p) x).
      { assert (Ht : take (length ((c :: a) ++ p)) ((c :: a) ++ p ++ b)
                     = take (length ((c :: a) ++ p)) (p ++ x))
          by (simpl; by rewrite <- Hx).
        rewrite app_assoc, take_app_length in Ht.
        etransitivity; [exact Ht|]. by apply take_app_ge. }
      specialize (Ha [] _ Hp). apply (f_equal length) in Hp.
      rewrite Ha, !length_app in Hp. simpl in Hp. lia. }
    simpl. rewrite sub_lit_miss by done. f_equal. apply IH.
    intros x y Hxy. apply (Ha (c :: x) y). simpl. by rewrite Hxy.
Qed.

(** A text without borders occurs in [a ++ p], for [a] free of it, at
    the end only. *)
Lemma leftmost_free a : borders p = false → ¬ occurs p a → leftmost p a.
Proof.
  intros Hb Ha x y Hxy. destruct y as [|c y]; [done|]. exfalso.
  apply app_eq_app in Hxy as [l [[Hal Hl]|[Hx Hl]]].
  - (* the occurrence starts inside [a] and ends inside the final [p] *)
    symmetry in Hl. apply app_eq_app in Hl as [l' [[Hl1 Hl2]|[Hp1 Hp2]]].
    + apply Ha. exists x, l'. by rewrite Hal, Hl1.
    + assert (Hl0 : l ≠ []).
      { intros ->. simpl in Hp1. apply (f_equal length) in Hp2.
        rewrite length_app, <- Hp1 in Hp2. simpl in Hp2. lia. }
      assert (Hl'0 : l' ≠ []).
      { intros ->. apply Ha. exists x, []. rewrite app_nil_r in *. by rewrite Hal, Hp1. }
      assert (existsb (λ k, startswith (drop k p) p) (seq 1 (length p - 1)) = true) as Habs;
        [|unfold borders in Hb; congruence].
      apply existsb_exists. exists (length l). split.
      * assert (Hlen : length p = length l + length l')
          by (apply (f_equal length) in Hp1; by rewrite length_app in Hp1).
        apply in_seq. destruct l, l'; simpl in *; try done; lia.
      * assert (Hd : drop (length l) p = l').
        { transitivity (drop (length l) (l ++ l')); [by f_equal|apply drop_app_length]. }
        rewrite Hd. apply startswith_true. by exists (c :: y).
  - apply (f_equal length) in Hl. rewrite !length_app in Hl. simpl in Hl. lia.
Qed.

End LiteralFrame.

Section GridSnapMore.
Import Re GridSnapText GridSnap Samples.

(** A text that cannot overlap [q] keeps [q] out when put between two
    texts free of [q]. *)
Lemma not_occurs_around q x y z :
  apart q y = true → ¬ occurs q x → ¬ occurs q z → ¬ occurs q (x ++ y ++ z).
Proof.
  unfold apart. rewrite !andb_true_iff, !negb_true_iff.
  intros [[[Hqy Hyq] Hqiny%contains_false] Hyinq%contains_false] Hx Hz.
  intros [Ho|[Ho|Ho]]%occurs_app_inv; [done| |].
  - apply occurs_app_inv in Ho as [Ho|[Ho|Ho]]; [done..|].
    destruct Ho as (q1 & q2 & -> & Hq1 & _ & Hsuf & _).
    apply (overlaps_false _ _ Hyq q1); eauto.
  - destruct Ho as (q1 & q2 & -> & Hq1 & Hq2 & _ & [b Hb]).
    apply app_eq_app in Hb as [l [[-> _]|[-> _]]].
    + apply (overlaps_false _ _ Hqy q2); eauto.
    + apply Hyinq. by exists q1, l.
Qed.

Lemma find_first p s i :
  find p s = Some i →
  ∃ a b, s = a ++ p ++ b ∧ length a = i
         ∧ ∀ a' b', s = a' ++ p ++ b' → i ≤ length a'.
Proof.
  revert i; induction s as [|c s IH]; intros i; simpl.
  - destruct (startswith p []) eqn:E; [|done].
    intros [= <-]. apply startswith_true in E as [r Hr].
    exists [], r. split_and!; [done|done|intros; lia].
  - destruct (startswith p (c :: s)) eqn:E.
    + intros [= <-]. apply startswith_true in E as [r Hr].
      exists [], r. split_and!; [done|done|intros; lia].
    + destruct (find p s) as [j|] eqn:F; [|done]. simpl. intros [= <-].
      destruct (IH j eq_refl) as (a & b & -> & <- & Hmin).
      exists (c :: a), b. split_and!; [done|done|].
      intros a' b' Hab. destruct a' as [|c' a']; simpl in Hab.
      * rewrite (proj2 (startswith_true _ _)) in E; [done|]. by exists b'.
      * injection Hab as _ Hab. specialize (Hmin a' b' Hab). simpl. lia.
Qed.

Lemma forms_mention_function :
  occurs (txt "function snapToGrid") snap_to_grid_form
  ∧ occurs (txt "function snapToGrid") snap_to_grid_center_form.
Proof. split; apply contains_true; vm_compute; reflexivity. Qed.

(** X1: the patcher takes its success branch exactly when one of the two
    pre-patch forms occurs in the file: one form is enough, and a text
    without either is never written. *)
Theorem patcher_writes_iff_form (w : world) (content : text) :
  node_at (tree w) target = Some (File true true content) →
  let found := occurs snap_to_grid_form content ∨ occurs snap_to_grid_center_form content in
  (apply_replacements content ≠ content ↔ found)
  ∧ (opened_for_writing (run w).2 = opened_for_writing w ++ [target] ↔ found)
  ∧ (console (run w).2
     = console w ++ [txt "Changes applied successfully"; txt "Updated " ++ file_path]
     ↔ found)
  ∧ tree (run w).2 !! target = Some (File true true (apply_replacements content)).
Proof.
  intros Hn found.
  assert (Hiff : apply_replacements content ≠ content ↔ found).
  { split; [apply changed_had_form|].
    destruct (patched_has_no_form content) as [H1 H2].
    intros [Ho|Ho] E; rewrite E in *; done. }
  destruct (decide (apply_replacements content = content)) as [Heq|Hne].
  - assert (Hnf : ¬ found) by (intros Hf; by apply Hiff in Hf).
    unfold run. rewrite (script_no_change w content (read_file_readable _ _ _ _ Hn) Heq).
    cbn [snd printed opened_for_writing console tree]. rewrite Heq.
    split_and!; [done| | |by rewrite <- node_at_target].
    + split; [|done]. intros E. apply (f_equal length) in E.
      rewrite length_app in E. simpl in E. lia.
    + split; [|done]. intros E. apply app_inv_head in E. injection E as E _.
      vm_compute in E. discriminate.
  - pose proof (proj1 Hiff Hne) as Hf.
    rewrite (run_first_application w content Hn Hne).
    cbn [snd opened_for_writing console tree].
    split_and!; [done|done|done|by rewrite lookup_insert_eq].
Qed.

Lemma patcher_writes_iff_form_witness :
  opened_for_writing (run unpatched_world).2 = [target].
Proof.
  destruct (patcher_writes_iff_form unpatched_world unpatched_component)
    as (_ & Hw & _).
  - vm_compute; reflexivity.
  - apply Hw. left. apply contains_true. vm_compute; reflexivity.
Defined.

(** X2: a file that does not mention [function snapToGrid] at all gets the
    no-change error and the could-not-find line; the run still ends
    with status 0 and opens nothing for writing. *)
Theorem not_found_diagnostic (w : world) (wr : bool) (content : text) :
  node_at (tree w) target = Some (File true wr content) →
  ¬ occurs (txt "function snapToGrid") content →
  run w = (0, printed w [ txt "ERROR: No changes were made. Patterns may not match.";
                          txt "Could not find snapToGrid function" ]).
Proof.
  intros Hn Hno. destruct forms_mention_function as [H1 H2].
  assert (Heq : apply_replacements content = content).
  { apply apply_replacements_fixed; intros Ho; apply Hno;
      [exact (occurs_trans _ _ _ H1 Ho)|exact (occurs_trans _ _ _ H2 Ho)]. }
  unfold run. rewrite (script_no_change w content (read_file_readable _ _ _ _ Hn) Heq).
  by rewrite (proj2 (contains_false _ _) Hno).
Qed.

Lemma not_found_diagnostic_witness :
  run unrelated_world
  = (0, printed unrelated_world
          [ txt "ERROR: No changes were made. Patterns may not match.";
            txt "Could not find snapToGrid function" ]).
Proof.
  apply (not_found_diagnostic unrelated_world true (txt "<script></script>")).
  - vm_compute; reflexivity.
  - apply contains_false. vm_compute; reflexivity.
Defined.

(** X3: a file that mentions [function snapToGrid] but holds neither exact
    form gets the no-change error, the found line, and as context the
    text from the first mention on, cut after 500 characters; nothing
    is opened for writing. *)
Theorem found_diagnostic_context (w : world) (wr : bool) (content : text) :
  node_at (tree w) target = Some (File true wr content) →
  occurs (txt "function snapToGrid") content →
  ¬ occurs snap_to_grid_form content →
  ¬ occurs snap_to_grid_center_form content →
  ∃ before after,
    content = before ++ txt "function snapToGrid" ++ after
    ∧ (∀ a' b', content = a' ++ txt "function snapToGrid" ++ b' → length before ≤ length a')
    ∧ run w
      = (0, printed w [ txt "ERROR: No changes were made. Patterns may not match.";
                        txt "Found snapToGrid function";
                        take 500 (txt "function snapToGrid" ++ after) ]).
Proof.
  intros Hn Ho H1 H2.
  pose proof (apply_replacements_fixed content H1 H2) as Heq.
  unfold run. rewrite (script_no_change w content (read_file_readable _ _ _ _ Hn) Heq).
  rewrite (proj2 (contains_true _ _) Ho).
  destruct (find (txt "function snapToGrid") content) as [i|] eqn:F.
  - destruct (find_first _ _ _ F) as (a & b & -> & <- & Hmin).
    exists a, b. split_and!; [done|done|].
    cbn [default]. unfold slice, id.
    replace (length a + 500 - length a) with 500 by lia.
    by rewrite drop_app_length.
  - by apply find_None in F.
Qed.

Lemma found_diagnostic_context_witness :
  ∃ before after,
    reformatted_component = before ++ txt "function snapToGrid" ++ after
    ∧ (∀ a' b', reformatted_component = a' ++ txt "function snapToGrid" ++ b' →
                length before ≤ length a')
    ∧ run reformatted_world
      = (0, printed reformatted_world
              [ txt "ERROR: No changes were made. Patterns may not match.";
                txt "Found snapToGrid function";
                take 500 (txt "function snapToGrid" ++ after) ]).
Proof.
  apply (found_diagnostic_context reformatted_world true reformatted_component).
  - vm_compute; reflexivity.
  - apply contains_true. vm_compute; reflexivity.
  - apply contains_false. vm_compute; reflexivity.
  - apply contains_false. vm_compute; reflexivity.
Defined.

(** X4: in a file that holds each function once, in the order of the
    component, the two passes replace the two functions and copy every
    other character. *)
Theorem patch_changes_only_the_two_functions (pre mid post : text) :
  ¬ occurs snap_to_grid_form pre → ¬ occurs snap_to_grid_form mid →
  ¬ occurs snap_to_grid_form post →
  ¬ occurs snap_to_grid_center_form pre → ¬ occurs snap_to_grid_center_form mid →
  ¬ occurs snap_to_grid_center_form post →
  apply_replacements
    (pre ++ snap_to_grid_form ++ mid ++ snap_to_grid_center_form ++ post)
  = pre ++ snap_to_grid_replacement ++ mid ++ snap_to_grid_center_replacement ++ post.
Proof.
  intros Hp1 Hm1 Ho1 Hp2 Hm2 Ho2. unfold apply_replacements.
  change (compile_literal snap_to_grid_pattern) with (Lit snap_to_grid_form).
  change (compile_literal snap_to_grid_center_pattern) with (Lit snap_to_grid_center_form).
  rewrite (sub_lit_frame _ _ snap_to_grid_form_nonempty).
  - replace (pre ++ snap_to_grid_replacement ++ mid ++ snap_to_grid_center_form ++ post)
      with ((pre ++ snap_to_grid_replacement ++ mid) ++ snap_to_grid_center_form ++ post)
      by (by rewrite <- !app_assoc).
    rewrite (sub_lit_frame _ _ snap_to_grid_center_form_nonempty); [by rewrite <- !app_assoc| |done].
    apply leftmost_free; [vm_compute; reflexivity|].
    apply not_occurs_around; [vm_compute; reflexivity|done|done].
  - apply leftmost_free; [vm_compute; reflexivity|done].
  - apply not_occurs_around; [vm_compute; reflexivity|done|done].
Qed.

Lemma patch_changes_only_the_two_functions_witness :
  apply_replacements unpatched_component
  = txt "<script lang=ts>
" ++ snap_to_grid_replacement ++ txt "

" ++ snap_to_grid_center_replacement ++ txt "
</script>
".
Proof.
  apply (patch_changes_only_the_two_functions (txt "<script lang=ts>
") (txt "

") (txt "
</script>
")); apply contains_false; vm_compute; reflexivity.
Defined.

(** X5: whatever the state of the files, the patcher leaves every path
    other than its target as it was, creates and removes nothing, and
    opens at most the target for writing, at most once. *)
Theorem patcher_touches_only_target (w : world) :
  (∀ p, p ≠ target → tree (run w).2 !! p = tree w !! p)
  ∧ dom (tree (run w).2) = dom (tree w)
  ∧ (opened_for_writing (run w).2 = opened_for_writing w
     ∨ opened_for_writing (run w).2 = opened_for_writing w ++ [target]).
Proof.
  unfold run. destruct (read_file target w) as [[content|e] w0] eqn:Hr.
  - apply read_file_inv in Hr as [-> [wr Hn]].
    pose proof (read_file_readable _ _ _ _ Hn) as Hr.
    destruct (decide (apply_replacements content = content)) as [Heq|Hne].
    + rewrite (script_no_change w content Hr Heq). cbn. auto.
    + rewrite (script_change w content Hr Hne). unfold write_file.
      cbn [tree printed]. rewrite Hn. destruct wr; cbn.
      * split_and!; [|apply dom_insert_lookup_L; by rewrite <- node_at_target, Hn|by right].
        intros p Hp. by rewrite lookup_insert_ne.
      * split_and!; [done|done|by right].
  - pose proof Hr as Hr'. apply read_file_inv in Hr' as [-> _].
    rewrite (script_read_error w e Hr). cbn. auto.
Qed.

End GridSnapMore.

(** * Further properties of the import fixer *)

Section MatchMore.
Import Re ReSub EsmImports EsmReport Samples.
Context `{UnicodeDB} {platform : Platform}.

Lemma exec_plus_class p s m g rest :
  In (m, g, rest) (exec_plus p s) → Forall (λ c, p c = true) m.
Proof.
  revert m g rest; induction s as [|c s IH]; intros m g rest; simpl; [done|].
  destruct (p c) eqn:E; [|done]. rewrite in_app_iff, in_map_iff. intros [Hin|Hin].
  - destruct Hin as ([[m' g'] rest'] & [= <- <- <-] & Hin).
    apply Forall_cons_2; [done|]. by eapply IH.
  - destruct Hin as [[= <- <- <-]|[]]. by apply Forall_cons_2.
Qed.

Lemma exec_relative_specifier_tail s m g rest :
  In (m, g, rest) (exec relative_specifier s) →
  ∃ tail, (m = txt "./" ++ tail ∨ m = txt "../" ++ tail)
          ∧ tail ≠ [] ∧ Forall (λ c, c ≠ squote ∧ c ≠ dquote) tail.
Proof.
  assert (Hq : ∀ tail, Forall (λ c, not_quote c = true) tail →
                       Forall (λ c, c ≠ squote ∧ c ≠ dquote) tail).
  { intros tail Ht. eapply Forall_impl; [exact Ht|]. intros c. unfold not_quote, is_quote.
    rewrite negb_true_iff, orb_false_iff, !N.eqb_neq. done. }
  intros Hin. unfold relative_specifier in Hin. apply exec_Alt_inv in Hin as [Hin|Hin].
  - apply (exec_Cat_inv (Lit _)) in Hin as (m1 & g1 & s1 & m2 & g2 & H1 & H2 & -> & _).
    apply exec_Lit_inv in H1 as [-> _]. exists m2. split; [by right|].
    pose proof (exec_plus_sound _ _ _ _ _ H2) as (_ & _ & Hne).
    split; [done|]. by apply Hq, (exec_plus_class _ _ _ _ _ H2).
  - apply (exec_Cat_inv (Lit _)) in Hin as (m1 & g1 & s1 & m2 & g2 & H1 & H2 & -> & _).
    apply exec_Lit_inv in H1 as [-> _]. exists m2. split; [by left|].
    pose proof (exec_plus_sound _ _ _ _ _ H2) as (_ & _ & Hne).
    split; [done|]. by apply Hq, (exec_plus_class _ _ _ _ _ H2).
Qed.

(** X7: whatever either pattern captures as the specifier is [./] or [../]
    followed by at least one character, none of them a quote: a bare
    package name, an empty path and a lone [./] are never handed to
    the callbacks, and the literal written back has no quote inside. *)
Theorem matched_specifier_is_relative_and_quote_free
    (s m rest spec : text) (g : list (nat * text)) :
  (In (m, g, rest) (exec pattern1 s) ∧ spec = group (MkMatch m g) 3)
  ∨ (In (m, g, rest) (exec pattern2 s) ∧ spec = group (MkMatch m g) 2) →
  ∃ tail,
    (spec = txt "./" ++ tail ∨ spec = txt "../" ++ tail)
    ∧ tail ≠ []
    ∧ Forall (λ c, c ≠ squote ∧ c ≠ dquote) spec
    ∧ occurs spec m
    ∧ s = m ++ rest.
Proof.
  assert (Hall : ∀ tail sp, (sp = txt "./" ++ tail ∨ sp = txt "../" ++ tail) →
                   Forall (λ c, c ≠ squote ∧ c ≠ dquote) tail →
                   Forall (λ c, c ≠ squote ∧ c ≠ dquote) sp).
  { intros tail sp [-> | ->] Ht; apply Forall_app; (split; [|done]);
      repeat (apply Forall_cons_2; [by vm_compute|]); apply Forall_nil_2. }
  intros [[Hin ->]|[Hin ->]]; pose proof (exec_sound _ _ _ _ _ Hin) as Hs.
  - unfold pattern1 in Hin.
    apply exec_Cat_inv in Hin as (m1 & g1 & s1 & ma & ga & H1 & Hin & -> & ->).
    apply exec_Cat_inv in Hin as (m2 & g2 & s2 & mb & gb & H2 & Hin & -> & ->).
    apply exec_Cat_inv in Hin as (m3 & g3 & s3 & m4 & g4 & H3 & H4 & -> & ->).
    apply exec_Grp_inv in H1 as (g1' & H1 & ->).
    apply exec_Grp_inv in H2 as (g2' & H2 & ->).
    apply exec_Grp_inv in H3 as (g3' & H3 & ->).
    apply exec_Grp_inv in H4 as (g4' & H4 & ->).
    apply exec_group_free in H1 as ->; [|done].
    apply exec_Cls_inv in H2 as (q & -> & -> & Hq).
    apply exec_Cls_inv in H4 as (q' & -> & -> & Hq').
    destruct (exec_relative_specifier_tail _ _ _ _ H3) as (tail & Hm3 & Hne & Hall3).
    apply exec_relative_specifier in H3 as [-> _].
    exists tail. change (group _ 3) with m3.
    split_and!; [done|done|by eapply Hall| |done].
    exists (m1 ++ [q]), [q']. by rewrite <- !app_assoc.
  - unfold pattern2 in Hin.
    apply exec_Cat_inv in Hin as (m0 & g0 & s0 & ma & ga & H0 & Hin & -> & ->).
    apply exec_Cat_inv in Hin as (m1 & g1 & s1 & mb & gb & H1 & Hin & -> & ->).
    apply exec_Cat_inv in Hin as (m2 & g2 & s2 & mc & gc & H2 & Hin & -> & ->).
    apply exec_Cat_inv in Hin as (m3 & g3 & s3 & m4 & g4 & H3 & H4 & -> & ->).
    apply exec_Lit_inv in H0 as [-> ->].
    apply exec_Grp_inv in H1 as (g1' & H1 & ->).
    apply exec_Grp_inv in H2 as (g2' & H2 & ->).
    apply exec_Grp_inv in H3 as (g3' & H3 & ->).
    apply exec_Lit_inv in H4 as [-> ->].
    apply exec_Cls_inv in H1 as (q & -> & -> & Hq).
    apply exec_Cls_inv in H3 as (q' & -> & -> & Hq').
    destruct (exec_relative_specifier_tail _ _ _ _ H2) as (tail & Hm2 & Hne & Hall2).
    apply exec_relative_specifier in H2 as [-> _].
    exists tail. change (group _ 2) with m2.
    split_and!; [done|done|by eapply Hall| |done].
    exists (txt "import(" ++ [q]), ([q'] ++ txt ")"). by rewrite <- !app_assoc.
Qed.

Lemma pattern1_starts_with_keyword s x :
  In x (exec pattern1 s) →
  startswith (txt "import") s = true ∨ startswith (txt "export") s = true.
Proof.
  destruct x as [[m g] rest]. intros Hin.
  pose proof (exec_sound _ _ _ _ _ Hin) as Hs. unfold pattern1 in Hin.
  apply exec_Cat_inv in Hin as (m1 & g1 & s1 & ma & ga & H1 & _ & -> & _).
  apply exec_Grp_inv in H1 as (g1' & H1 & _). unfold statement_prefix in H1.
  apply exec_Cat_inv in H1 as (k & gk & sk & mb & gb & Hk & _ & -> & _).
  apply exec_Alt_inv in Hk as [Hk|Hk]; apply exec_Lit_inv in Hk as [-> _];
    [left|right]; apply startswith_true; eexists; rewrite Hs, <- !app_assoc; done.
Qed.

Lemma pattern2_starts_with_keyword s x :
  In x (exec pattern2 s) → startswith (txt "import") s = true.
Proof.
  destruct x as [[m g] rest]. intros Hin.
  pose proof (exec_sound _ _ _ _ _ Hin) as Hs. unfold pattern2 in Hin.
  apply exec_Cat_inv in Hin as (m0 & g0 & s0 & ma & ga & H0 & _ & -> & _).
  apply exec_Lit_inv in H0 as [-> _].
  apply startswith_true. exists (txt "(" ++ ma ++ rest). rewrite Hs.
  change (txt "import(") with (txt "import" ++ txt "("). by rewrite <- !app_assoc.
Qed.

(** X8: a text in which neither [import] nor [export] occurs goes through
    both passes unchanged, with no change counted, whatever else it
    holds. *)
Theorem keyword_free_text_is_unchanged
    (t : gmap path node) (file_dir source_root : path) (content : text) :
  ¬ occurs (txt "import") content → ¬ occurs (txt "export") content →
  rewrite_content t file_dir source_root content = Ok (content, 0).
Proof.
  intros Hi He. unfold rewrite_content.
  assert (Hnone : ∀ r u, exec r u = [] → match_here r u = None).
  { intros r u E. unfold match_here. by rewrite E. }
  rewrite sub_no_match.
  - cbn [mbind result_bind]. apply sub_no_match. intros a u ->. apply Hnone.
    destruct (exec pattern2 u) as [|x l] eqn:E; [done|].
    assert (Hx : In x (exec pattern2 u)) by (rewrite E; by left).
    apply pattern2_starts_with_keyword, startswith_true in Hx as [r ->].
    destruct Hi. by exists a, r.
  - intros a u ->. apply Hnone.
    destruct (exec pattern1 u) as [|x l] eqn:E; [done|].
    assert (Hx : In x (exec pattern1 u)) by (rewrite E; by left).
    apply pattern1_starts_with_keyword in Hx as [[r ->]%startswith_true|[r ->]%startswith_true].
    + destruct Hi. by exists a, r.
    + destruct He. by exists a, r.
Qed.

End MatchMore.

Section FileMore.
Import Re EsmImports EsmReport.
Context `{UnicodeDB} `{Platform}.

(** X6: one call either raises, and then a path lookup raised inside
    the passes and nothing was printed or written, or reports
    (false, 0), leaving the tree alone, or (true, n) with n at least
    1; in the last case the file was readable and writable, now
    holds the longer text the two passes made of it, and reads back
    as that text. *)
Theorem fix_imports_in_file_outcome (file_path source_root : path) (w : world) :
  match fix_imports_in_file file_path source_root w with
  | (Raise e, w1) =>
      w1 = w ∧ raised_by_lookup e
      ∧ ∃ old wr,
          node_at (tree w) file_path = Some (File true wr old)
          ∧ rewrite_content (tree w) (parent file_path) source_root old = Raise e
  | (Ok (was_modified, num_changes), w1) =>
      (was_modified = false → num_changes = 0 ∧ tree w1 = tree w)
      ∧ (was_modified = true →
         1 ≤ num_changes
         ∧ ∃ old new,
             node_at (tree w) file_path = Some (File true true old)
             ∧ rewrite_content (tree w) (parent file_path) source_root old
               = Ok (new, num_changes)
             ∧ new ≠ old
             ∧ length old + num_changes ≤ length new
             ∧ tree w1 = <[file_path := File true true new]> (tree w)
             ∧ read_file file_path w1 = (Ok new, w1))
  end.
Proof.
  destruct (fix_imports_in_file file_path source_root w) as [[[was k]|e] w1] eqn:Hfix.
  2: { apply fix_imports_in_file_raise in Hfix as (-> & old & wr & Hn & Hrc).
       split; [done|]. split; [by eapply rewrite_content_raise|]. by exists old, wr. }
  destruct (read_file file_path w) as [[content|e] w0] eqn:Hr.
  - pose proof Hr as Hr'. apply read_file_inv in Hr' as [-> [wr Hn]].
    destruct (rewrite_content (tree w) (parent file_path) source_root content)
      as [[new n]|e] eqn:Hrc.
    2: { by rewrite (fix_imports_in_file_raises _ _ _ _ _ Hr Hrc) in Hfix. }
    destruct (decide (new = content)) as [->|Hne].
    + rewrite (fix_imports_in_file_unchanged _ _ _ _ _ Hr Hrc) in Hfix.
      injection Hfix as <- <- <-. by split.
    + rewrite (fix_imports_in_file_changed _ _ _ _ _ _ Hr Hrc Hne) in Hfix.
      apply (rewrite_content_changed _ _ _ _ _ _ Hrc) in Hne as Hpos.
      pose proof (rewrite_content_counts _ _ _ _ _ _ Hrc) as [Hlen _].
      unfold write_file in Hfix. rewrite Hn in Hfix. destruct wr.
      * injection Hfix as <- <- <-. split; [done|]. intros _.
        split; [lia|]. exists content, new. split_and!; try done.
        unfold read_file. cbn [tree].
        destruct file_path as [|c f]; [done|]. cbn [node_at].
        by rewrite lookup_insert_eq.
      * injection Hfix as <- <- <-. by split.
  - pose proof Hr as Hr'. apply read_file_inv in Hr' as [-> _].
    rewrite (fix_imports_in_file_read_error _ _ _ _ Hr) in Hfix.
    injection Hfix as <- <- <-. by split.
Qed.

Lemma written_back_count t f : written_back t f = true → 1 ≤ rewrite_count t f.
Proof.
  unfold written_back.
  destruct (node_at t f) as [[|[] [] d]|]; try done. by intros ?%Nat.ltb_lt.
Qed.

Lemma written_back_has_rewrites t f :
  written_back t f = true → (0 <? rewrite_count t f) = true.
Proof. intros ?%written_back_count. apply Nat.ltb_lt. lia. Qed.



(** X10: with none of the three source directories in place, the run prints
    one warning per directory and a summary of zeros, returns 1, and
    leaves every file alone. *)
Theorem missing_directories_are_skipped (script_file : path) (w : world) :
  let vtt_root := parent (parent (parent script_file)) in
  Forall (λ d, Path_exists (tree w) d = Ok false) (directories vtt_root) →
  run script_file w
  = (1, printed w
          ([ banner;
             txt "ESM Import Fixer - Adding .js extensions to relative imports";
             banner ]
           ++ map (λ d, txt "
[WARNING] Directory not found: " ++ path_str d) (directories vtt_root)
           ++ [ [10%N] ++ banner;
                txt "Summary:";
                txt "  Files modified: 0";
                txt "  Total changes: 0";
                banner ])).
Proof.
  intros vtt_root Hall. unfold directories in Hall.
  apply Forall_cons in Hall as [H1 Hall]. apply Forall_cons in Hall as [H2 Hall].
  apply Forall_cons in Hall as [H3 _].
  unfold run, main. fold vtt_root. unfold directories.
  cbn [for_each_directory].
  unfold mbind, M_bind, bind, print, get_tree, of_result, mret, M_ret, ret, printed.
  cbn [tree console opened_for_writing]. rewrite H1. cbn [negb tree console opened_for_writing].
  rewrite H2. cbn [negb tree console opened_for_writing].
  rewrite H3. cbn [negb tree console opened_for_writing fst snd exit_status map].
  change (0 <? 0) with false. cbv iota. f_equal. f_equal.
  by rewrite <- !app_assoc.
Qed.

End FileMore.

Section RunEffect.
Import Re EsmImports EsmReport.
Context `{UnicodeDB} `{Platform}.

(** What one call does to the tree and to the list of files opened for
    writing, when no lookup raises. *)
Lemma fix_imports_in_file_effect f root w :
  aborts (tree w) f = false →
  tree (fix_imports_in_file f root w).2
  = (if written_back (tree w) f
     then <[f := File true true (rewritten_text (tree w) f)]> (tree w)
     else tree w)
  ∧ opened_for_writing (fix_imports_in_file f root w).2
    = opened_for_writing w ++ (if 0 <? rewrite_count (tree w) f then [f] else []).
Proof.
  unfold aborts, written_back, rewrite_count, rewritten_text, file_passes. intros Ha.
  destruct (read_file f w) as [[content|e] w0] eqn:Hr.
  - pose proof Hr as Hr'. apply read_file_inv in Hr' as [-> [wr Hn]]. rewrite Hn in *.
    rewrite (rewrite_content_same_shape _ (tree w) _ [] root content (same_shape_refl _))
      in *.
    destruct (rewrite_content (tree w) (parent f) root content) as [[out n]|e] eqn:Hrc;
      [|done].
    destruct (decide (out = content)) as [->|Hne].
    + rewrite (fix_imports_in_file_unchanged f root w content n Hr Hrc).
      assert (n = 0) as ->.
      { destruct (rewrite_content_changed _ _ _ _ _ _ Hrc) as [_ Hc].
        destruct n; [done|]. destruct Hc; [lia|done]. }
      cbn. rewrite app_nil_r. by destruct wr.
    + rewrite (fix_imports_in_file_changed f root w content out n Hr Hrc Hne).
      apply (rewrite_content_changed _ _ _ _ _ _ Hrc) in Hne as Hpos.
      rewrite (proj2 (Nat.ltb_lt _ _) Hpos).
      unfold write_file. rewrite Hn. by destruct wr.
  - pose proof Hr as Hr'. apply read_file_inv in Hr' as [-> Hn].
    rewrite (fix_imports_in_file_read_error f root w e Hr). cbn.
    destruct (node_at (tree w) f) as [[|[] wr d]|] eqn:E;
      [by rewrite app_nil_r|by destruct (Hn wr d)|by rewrite app_nil_r..].
Qed.

Lemma rewrite_count_filter_stable t t' files :
  same_shape t t' → (∀ g, g ∈ files → t' !! g = t !! g) →
  List.filter (λ f, 0 <? rewrite_count t' f) files
  = List.filter (λ f, 0 <? rewrite_count t f) files.
Proof.
  intros Hs Hg. apply filter_ext_in. intros g Hin%list_elem_of_In.
  by destruct (report_stable t t' g Hs (Hg g Hin)) as (_ & -> & _).
Qed.

(** The inner loop leaves, in each file it writes back, the text the
    two passes make of it on the tree the loop started from, leaves
    everything else alone, and opens for writing the files with a
    rewrite, in the order given. *)
Lemma for_each_file_effect directory files :
  NoDup files →
  ∀ acc w,
    forallb (λ f, negb (aborts (tree w) f)) files = true →
    (∀ g, tree (for_each_file directory files acc w).2 !! g
          = if bool_decide (g ∈ files) && written_back (tree w) g
            then Some (File true true (rewritten_text (tree w) g))
            else tree w !! g)
    ∧ opened_for_writing (for_each_file directory files acc w).2
      = opened_for_writing w ++ List.filter (λ f, 0 <? rewrite_count (tree w) f) files.
Proof.
  induction files as [|f rest IH]; intros Hnd acc w Hok.
  - cbn. split; [done|by rewrite app_nil_r].
  - apply NoDup_cons in Hnd as [Hf Hnd].
    cbn [forallb] in Hok. apply andb_true_iff in Hok as [Ha%negb_true_iff Hok].
    destruct (fix_imports_in_file_effect f directory w Ha) as [Ht1 Hw1].
    destruct (for_each_file_step directory f rest acc w Ha)
      as (acc' & w2 & -> & _ & Ht2 & Hw2 & Hs1 & Ho1).
    rewrite Ht1 in Ht2. rewrite Hw1 in Hw2.
    assert (Hagree : ∀ g, g ∈ rest → tree w2 !! g = tree w !! g).
    { intros g Hg. apply Ho1. by intros ->. }
    rewrite <- (aborts_stable (tree w) (tree w2) rest Hs1 Hagree) in Hok.
    destruct (IH Hnd acc' w2 Hok) as [IHt IHw].
    split.
    + intros g. rewrite IHt. destruct (decide (g = f)) as [->|Hgf].
      * rewrite (bool_decide_eq_false_2 (f ∈ rest)) by done.
        rewrite (bool_decide_eq_true_2 (f ∈ f :: rest)) by apply list_elem_of_here.
        cbn [andb]. rewrite Ht2. destruct (written_back (tree w) f); [|done].
        by rewrite lookup_insert_eq.
      * assert (Hb : bool_decide (g ∈ f :: rest) = bool_decide (g ∈ rest)).
        { apply bool_decide_ext. rewrite elem_of_cons. intuition. }
        rewrite Hb. destruct (bool_decide (g ∈ rest)) eqn:Eg; cbn [andb].
        -- apply bool_decide_eq_true in Eg.
           destruct (report_stable (tree w) (tree w2) g Hs1 (Hagree g Eg))
             as (-> & _ & -> & _).
           by rewrite (Hagree g Eg).
        -- by apply Ho1.
    + rewrite IHw, Hw2, (rewrite_count_filter_stable (tree w) (tree w2) rest Hs1 Hagree).
      cbn [List.filter]. rewrite <- app_assoc.
      by destruct (0 <? rewrite_count (tree w) f).
Qed.

Lemma counts_Permutation t l l' :
  l ≡ₚ l' →
  files_modified t l = files_modified t l' ∧ total_changes t l = total_changes t l'.
Proof.
  induction 1 as [|x l l' _ [IH1 IH2]|x y l|l l' l'' _ [IH1 IH2] _ [IH3 IH4]].
  - done.
  - destruct (counts_cons t x l) as [-> ->], (counts_cons t x l') as [-> ->].
    by rewrite IH1, IH2.
  - destruct (counts_cons t y (x :: l)) as [-> ->], (counts_cons t x l) as [-> ->].
    destruct (counts_cons t x (y :: l)) as [-> ->], (counts_cons t y l) as [-> ->].
    split; lia.
  - split; congruence.
Qed.

Lemma no_abort_Permutation t l l' :
  l ≡ₚ l' →
  forallb (λ f, negb (aborts t f)) l = true → forallb (λ f, negb (aborts t f)) l' = true.
Proof.
  intros Hp. rewrite !forallb_forall. intros Hl x Hx%list_elem_of_In.
  apply Hl, list_elem_of_In. by rewrite Hp.
Qed.

(** X13: when none of the files makes a path lookup raise, the
    order in which the files of a directory are visited does not
    matter: the counts returned and the tree left behind are the
    same. *)
Theorem file_order_does_not_matter
    (directory : path) (files files' : list path) (acc : nat * nat) (w : world) :
  NoDup files → files ≡ₚ files' →
  forallb (λ f, negb (aborts (tree w) f)) files = true →
  (for_each_file directory files acc w).1 = (for_each_file directory files' acc w).1
  ∧ tree (for_each_file directory files acc w).2
    = tree (for_each_file directory files' acc w).2.
Proof.
  intros Hnd Hp Hok. assert (Hnd' : NoDup files') by (by rewrite <- Hp).
  pose proof (no_abort_Permutation _ _ _ Hp Hok) as Hok'.
  split.
  - destruct (for_each_file_spec directory files Hnd acc w Hok) as (w1 & -> & _).
    destruct (for_each_file_spec directory files' Hnd' acc w Hok') as (w1' & -> & _).
    cbn [fst]. by destruct (counts_Permutation (tree w) files files' Hp) as [-> ->].
  - apply map_eq. intros g.
    rewrite (proj1 (for_each_file_effect directory files Hnd acc w Hok) g).
    rewrite (proj1 (for_each_file_effect directory files' Hnd' acc w Hok') g).
    assert (Hb : bool_decide (g ∈ files) = bool_decide (g ∈ files'))
      by (apply bool_decide_ext; by rewrite Hp).
    by rewrite Hb.
Qed.





End RunEffect.

Section MoreSamples.
Import Re EsmImports EsmReport Samples.

#[local] Existing Instance ascii_db.
#[local] Existing Instance linux.

Lemma matched_specifier_is_relative_and_quote_free_witness :
  ∃ tail,
    (txt "./dyn" = txt "./" ++ tail ∨ txt "./dyn" = txt "../" ++ tail)
    ∧ tail ≠ []
    ∧ Forall (λ c, c ≠ squote ∧ c ≠ dquote) (txt "./dyn")
    ∧ occurs (txt "./dyn") (txt "import('./dyn')")
    ∧ txt "import('./dyn');" = txt "import('./dyn')" ++ txt ";".
Proof.
  apply (matched_specifier_is_relative_and_quote_free
           (txt "import('./dyn');") (txt "import('./dyn')") (txt ";") (txt "./dyn")
           [(3, [squote]); (2, txt "./dyn"); (1, [squote])]).
  right. split.
  - vm_compute. left. reflexivity.
  - vm_compute. reflexivity.
Defined.

Lemma keyword_free_text_is_unchanged_witness :
  rewrite_content (tree (project true)) src src (txt "const a = require('./a');")
  = Ok (txt "const a = require('./a');", 0).
Proof.
  apply keyword_free_text_is_unchanged; apply contains_false; vm_compute; reflexivity.
Defined.

Lemma missing_directories_are_skipped_witness :
  (run script_file empty_world).1 = 1.
Proof.
  rewrite (missing_directories_are_skipped script_file empty_world); [reflexivity|].
  repeat (apply Forall_cons_2; [vm_compute; reflexivity|]). apply Forall_nil_2.
Defined.

Lemma file_order_does_not_matter_witness :
  let a := src ++ [txt "app.ts"] in
  let b := src ++ [txt "foo"; txt "index.ts"] in
  (for_each_file src [a; b] (0, 0) (project true)).1
  = (for_each_file src [b; a] (0, 0) (project true)).1
  ∧ tree (for_each_file src [a; b] (0, 0) (project true)).2
    = tree (for_each_file src [b; a] (0, 0) (project true)).2.
Proof.
  intros a b. apply file_order_does_not_matter.
  - apply NoDup_cons_2; [|apply NoDup_singleton].
    intros Hin%list_elem_of_singleton. vm_compute in Hin. discriminate.
  - apply perm_swap.
  - vm_compute. reflexivity.
Defined.



(** With a file that makes a lookup raise, the order does matter: the
    files visited before it are rewritten, the others are not. *)
Example order_matters_when_a_lookup_raises :
  let good := src ++ [txt "app.ts"] in
  let bad := src ++ [txt "long.ts"] in
  let w := World (<[bad := File true true long_ts]> (tree (project true))) [] [] in
  opened_for_writing (for_each_file src [good; bad] (0, 0) w).2 = [good]
  ∧ opened_for_writing (for_each_file src [bad; good] (0, 0) w).2 = [].
Proof. vm_compute. split; reflexivity. Qed.

End MoreSamples.
